(** * NYC yellow-taxi dashboard: the filter-and-aggregate callback of [app.py]

    A shallow embedding of [src/app.py].  The module-level script builds one
    DataFrame [df] (loaded, sampled, re-indexed, enriched with [hour], [date],
    [lat], [lon] and [cluster]) and the Dash callback [update_dashboard]
    filters a copy of it and derives four figures.

    DataFrames are Python objects living on the heap: [df.copy()] and boolean
    indexing allocate new frames, whereas [dff['period'] = ...] writes a column
    into an existing one.  The development therefore threads an explicit heap
    of frames through a small exception-and-state monad. *)

From Stdlib Require Import ZArith QArith String List Sorted Lia.
From stdpp Require Import base option list gmap strings.
Import ListNotations.

Local Open Scope string_scope.
Local Open Scope Z_scope.

(** ** Data model *)

(** One row of the DataFrame.  [ix] is the index label that
    [reset_index(drop=True)] hands out at load time; timestamps are instants
    on the integer time line, distances and coordinates are the (finite)
    numbers stored in the float columns, compared exactly. *)
Record Row : Type := mkRow {
  ix : nat;
  tpep_pickup_datetime : Z;
  hour : Z;
  date : Z;
  passenger_count : Z;
  trip_distance : Q;
  lat : Q;
  lon : Q;
  cluster : Z
}.

(** A frame: its rows, and the optional extra column ['period'] that only the
    callback's working frame carries. *)
Record Frame : Type := mkFrame {
  rows : list Row;
  col_period : option (list string)
}.

Definition loc := nat.

(** ** Exceptions, results and the heap monad *)

Inductive exn : Type :=
| IndexError   (* list index out of range *)
| KeyError     (* column missing from a frame *)
| NameError.   (* reference to no live object *)

Inductive Result (A : Type) : Type :=
| Ok (a : A)
| Raise (e : exn).
Arguments Ok {A} a.
Arguments Raise {A} e.

Definition Py (A : Type) : Type := gmap loc Frame -> Result A * gmap loc Frame.

Definition ret {A} (a : A) : Py A := fun h => (Ok a, h).
Definition raise {A} (e : exn) : Py A := fun h => (Raise e, h).
Definition bind {A B} (c : Py A) (k : A -> Py B) : Py B :=
  fun h => match c h with
           | (Ok a, h') => k a h'
           | (Raise e, h') => (Raise e, h')
           end.

Notation "'let!' x ':=' c 'in' k" := (bind c (fun x => k))
  (at level 10, x name, c at level 100, k at level 200, only parsing).

Definition deref (l : loc) : Py Frame :=
  fun h => match h !! l with
           | Some F => (Ok F, h)
           | None => (Raise NameError, h)
           end.

Definition alloc (F : Frame) : Py loc :=
  fun h => let l := fresh (dom h) in (Ok l, <[l := F]> h).

Definition assign (l : loc) (F : Frame) : Py unit :=
  fun h => (Ok tt, <[l := F]> h).

(** ** Series and DataFrame primitives used by the callback *)

(** [s >= v] and [s <= v] on a column give a boolean mask. *)
Definition Series_ge_Z (s : list Z) (v : Z) : list bool := map (fun x => v <=? x) s.
Definition Series_le_Z (s : list Z) (v : Z) : list bool := map (fun x => x <=? v) s.
Definition Series_ge_Q (s : list Q) (v : Q) : list bool := map (fun x => Qle_bool v x) s.
Definition Series_le_Q (s : list Q) (v : Q) : list bool := map (fun x => Qle_bool x v) s.

(** [m1 & m2], element by element. *)
Fixpoint mask_and (m1 m2 : list bool) : list bool :=
  match m1, m2 with
  | b1 :: m1', b2 :: m2' => (b1 && b2)%bool :: mask_and m1' m2'
  | _, _ => []
  end.

(** [s.apply(f)] and [s.isin(values)]. *)
Definition Series_apply {A B} (f : A -> B) (s : list A) : list B := map f s.
Definition Series_isin (s : list string) (values : list string) : list bool :=
  map (fun x => existsb (String.eqb x) values) s.

(** Row selection by a boolean mask: keeps, in order, the entries whose mask
    bit is set. *)
Fixpoint select {A} (mask : list bool) (xs : list A) : list A :=
  match mask, xs with
  | b :: mask', x :: xs' => if b then x :: select mask' xs' else select mask' xs'
  | _, _ => []
  end.

(** [frame[col]] for a base column. *)
Definition getitem_col {A} (f : Row -> A) (l : loc) : Py (list A) :=
  let! F := deref l in ret (map f (rows F)).

(** [frame['period']]: a [KeyError] when the column was never written. *)
Definition getitem_period (l : loc) : Py (list string) :=
  let! F := deref l in
  match col_period F with
  | Some c => ret c
  | None => raise KeyError
  end.

(** [frame.copy()]: a new object with the same contents. *)
Definition DataFrame_copy (l : loc) : Py loc :=
  let! F := deref l in alloc F.

(** [frame[mask]]: a new object holding the selected rows (every column is
    cut by the same mask). *)
Definition getitem_mask (l : loc) (mask : list bool) : Py loc :=
  let! F := deref l in
  alloc {| rows := select mask (rows F);
           col_period := option_map (select mask) (col_period F) |}.

(** [frame['period'] = s]: writes the column into the object itself. *)
Definition setitem_period (l : loc) (s : list string) : Py unit :=
  let! F := deref l in
  assign l {| rows := rows F; col_period := Some s |}.

(** [xs[i]] on a Python list. *)
Definition list_getitem {A} (xs : list A) (i : nat) : Py A :=
  match nth_error xs i with
  | Some x => ret x
  | None => raise IndexError
  end.

(** ** The callback *)

(** The nested helper [period] of [update_dashboard]. *)
Definition period (h : Z) : string :=
  if (6 <=? h) && (h <? 12) then "morning"
  else if (12 <=? h) && (h <? 18) then "afternoon"
  else if (18 <=? h) && (h <? 24) then "evening"
  else "night".

(** Lines 158-174 of [app.py]: the filtering half of the callback.  It
    returns the reference held by the local variable [dff] when the figures
    start being built.  [df] is the module-level frame; [start] and [end_]
    are the picker's bounds as instants. *)
Definition filter_view (df : loc) (start end_ : Z) (passengers : Z)
    (distance : list Q) (tod : list string) : Py loc :=
  let! dff := DataFrame_copy df in
  let! t1 := getitem_col tpep_pickup_datetime dff in
  let! t2 := getitem_col tpep_pickup_datetime dff in
  let! dff := getitem_mask dff (mask_and (Series_ge_Z t1 start) (Series_le_Z t2 end_)) in
  let! p := getitem_col passenger_count dff in
  let! dff := getitem_mask dff (Series_ge_Z p passengers) in
  let! d1 := getitem_col trip_distance dff in
  let! lo := list_getitem distance 0 in
  let! d2 := getitem_col trip_distance dff in
  let! hi := list_getitem distance 1 in
  let! dff := getitem_mask dff (mask_and (Series_ge_Q d1 lo) (Series_le_Q d2 hi)) in
  let! hs := getitem_col hour dff in
  let! _ := setitem_period dff (Series_apply period hs) in
  let! ps := getitem_period dff in
  getitem_mask dff (Series_isin ps tod).

(** ** Aggregation helpers *)

(** [groupby(key).size().reset_index(...)]: one row per key present, keys in
    increasing order, with the number of rows carrying that key. *)
Fixpoint tally_sorted (k : Z) (acc : list (Z * nat)) : list (Z * nat) :=
  match acc with
  | [] => [(k, 1%nat)]
  | (k', n) :: acc' =>
      if k <? k' then (k, 1%nat) :: acc
      else if k =? k' then (k', S n) :: acc'
      else (k', n) :: tally_sorted k acc'
  end.

Definition groupby_size (keys : list Z) : list (Z * nat) :=
  fold_left (fun acc k => tally_sorted k acc) keys [].

(** [value_counts().reset_index()]: one row per distinct value, most
    frequent first; values with equal counts stay in order of first
    appearance. *)
Fixpoint tally (k : Z) (acc : list (Z * nat)) : list (Z * nat) :=
  match acc with
  | [] => [(k, 1%nat)]
  | (k', n) :: acc' =>
      if k =? k' then (k', S n) :: acc' else (k', n) :: tally k acc'
  end.

Fixpoint insert_desc (e : Z * nat) (l : list (Z * nat)) : list (Z * nat) :=
  match l with
  | [] => [e]
  | e' :: l' =>
      if (snd e <? snd e')%nat then e' :: insert_desc e l' else e :: l
  end.

Definition value_counts (vals : list Z) : list (Z * nat) :=
  fold_right insert_desc [] (fold_left (fun acc k => tally k acc) vals []).

(** ** Figures

    Each figure is described by the data handed to plotly: the scatter map by
    its (lat, lon, colour) points, the line chart by its (hour, Trips) rows,
    the histogram by its sample and requested bin count (plotly bins in the
    browser), the bar chart by its (Passengers, Trips) rows. *)
Definition MapFig : Type := list (Q * Q * Z).
Definition TimeFig : Type := list (Z * nat).
Definition DistFig : Type := (list Q * nat)%type.
Definition PassFig : Type := list (Z * nat).
Record Figures : Type := mkFigures {
  map_fig : MapFig;
  time_fig : TimeFig;
  dist_fig : DistFig;
  pass_fig : PassFig
}.

Definition nbins : nat := 30.

(** Lines 176-202: the four figures built from the filtered frame. *)
Definition build_figures (dff : loc) : Py Figures :=
  let! points := getitem_col (fun r => (lat r, lon r, cluster r)) dff in
  let! hs := getitem_col hour dff in
  let time_df := groupby_size hs in
  let! ds := getitem_col trip_distance dff in
  let! ps := getitem_col passenger_count dff in
  let pass_df := value_counts ps in
  ret {| map_fig := points; time_fig := time_df;
         dist_fig := (ds, nbins); pass_fig := pass_df |}.

(** The callback [update_dashboard(start, end, passengers, distance, tod)]. *)
Definition update_dashboard (df : loc) (start end_ : Z) (passengers : Z)
    (distance : list Q) (tod : list string) : Py Figures :=
  let! dff := filter_view df start end_ passengers distance tod in
  build_figures dff.

(** ** Start-up clustering (lines 34-38)

    [StandardScaler] and [DBSCAN] are scikit-learn's; their code is not part
    of [app.py], which only fixes the parameters [eps = 0.15] and
    [min_samples = 40] and stores [labels_] in the ['cluster'] column. *)

Definition Point : Type := (Q * Q)%type.

Definition Qsum (xs : list Q) : Q := fold_right Qplus 0%Q xs.

Definition mean (xs : list Q) : Q :=
  (Qsum xs / inject_Z (Z.of_nat (length xs)))%Q.

Definition variance (xs : list Q) : Q :=
  let m := mean xs in mean (map (fun x => (x - m) * (x - m))%Q xs).

(** Modelled from the spec: the scaler of scikit-learn, which is not under
    [src/].  Each coordinate is centred on the column mean and divided by the
    column's standard deviation over the whole dataset.  A standard deviation
    is a square root, so the scaled points themselves are not rationals; what
    the clustering needs of them is only the squared Euclidean distance
    between two scaled points, which is rational: the squared coordinate
    differences divided by the column variances.  A constant column has
    variance 0 and all its differences are 0; its divisor is then taken to
    be 1. *)
Definition scale2 (v : Q) : Q := if Qeq_bool v 0 then 1%Q else v.

Definition scaled_sqdist (vx vy : Q) (p q : Point) : Q :=
  ((fst p - fst q) * (fst p - fst q) / scale2 vx
   + (snd p - snd q) * (snd p - snd q) / scale2 vy)%Q.

(** Within distance [eps] of one another in standardized space
    (distance <= eps iff squared distance <= eps squared, for eps >= 0). *)
Definition within (eps : Q) (vx vy : Q) (p q : Point) : bool :=
  Qle_bool (scaled_sqdist vx vy p q) (eps * eps).

(** The indices of the points within [eps] of [p], [p]'s own included. *)
Fixpoint indices_where {A} (f : A -> bool) (i : nat) (xs : list A) : list nat :=
  match xs with
  | [] => []
  | x :: xs' => if f x then i :: indices_where f (S i) xs' else indices_where f (S i) xs'
  end.

Definition neighborhoods (eps : Q) (pts : list Point) : list (list nat) :=
  let vx := variance (map fst pts) in
  let vy := variance (map snd pts) in
  map (fun p => indices_where (within eps vx vy p) 0 pts) pts.

Definition noise : Z := -1.

Definition unlabeled (labels : list Z) (i : nat) : bool :=
  bool_decide (labels !! i = Some noise).

(** Modelled from the spec: growing one cluster from a core point, the
    density-based clustering of scikit-learn not being under [src/].  The
    point in hand takes the cluster's number if it has none; if it is a core
    point its still unlabeled neighbours are put on the stack; then the next
    point is taken off the stack, until it is empty.  [fuel] bounds the number
    of points taken in hand. *)
Fixpoint expand (fuel : nat) (core : list bool) (nbrs : list (list nat))
    (label_num : Z) (i : nat) (stack : list nat) (labels : list Z)
  : option (list Z) :=
  match fuel with
  | O => None
  | S fuel' =>
      let '(labels1, stack1) :=
        if unlabeled labels i then
          let labels1 := <[i := label_num]> labels in
          if default false (core !! i) then
            (labels1,
             (rev (List.filter (unlabeled labels1) (default [] (nbrs !! i)))
              ++ stack)%list)
          else (labels1, stack)
        else (labels, stack) in
      match stack1 with
      | [] => Some labels1
      | top :: rest => expand fuel' core nbrs label_num top rest labels1
      end
  end.

(** Modelled from the spec: the scan over the points in dataset order.  A
    point that is still unlabeled and is a core point starts the next
    cluster; everything never reached from a core point keeps the noise
    label. *)
Fixpoint scan (fuel : nat) (core : list bool) (nbrs : list (list nat))
    (todo : list nat) (label_num : Z) (labels : list Z) : option (list Z) :=
  match todo with
  | [] => Some labels
  | i :: todo' =>
      if negb (unlabeled labels i) || negb (default false (core !! i))
      then scan fuel core nbrs todo' label_num labels
      else match expand fuel core nbrs label_num i [] labels with
           | None => None
           | Some labels' => scan fuel core nbrs todo' (label_num + 1) labels'
           end
  end.

(** Modelled from the spec: [DBSCAN(eps, min_samples).fit(scaled).labels_].
    A core point has at least [min_samples] points, itself included, within
    [eps]; labels start as noise.  Each point is expanded at most once and
    puts at most [n] points on the stack, so [n * n + 1] steps are enough for
    any one cluster. *)
Definition DBSCAN (eps : Q) (min_samples : nat) (pts : list Point)
  : option (list Z) :=
  let n := length pts in
  let nbrs := neighborhoods eps pts in
  let core := map (fun ns => (min_samples <=? length ns)%nat) nbrs in
  scan (S (n * n)) core nbrs (seq 0 n) 0 (repeat noise n).

Definition eps : Q := 15 # 100.
Definition min_samples : nat := 40.

(** Lines 34-37: the labels computed from the ['lat'] and ['lon'] columns. *)
Definition cluster_labels (coords : list Point) : option (list Z) :=
  DBSCAN eps min_samples coords.

(** Line 38: [df['cluster'] = db.labels_]. *)
Definition set_cluster (r : Row) (c : Z) : Row :=
  {| ix := ix r; tpep_pickup_datetime := tpep_pickup_datetime r; hour := hour r;
     date := date r; passenger_count := passenger_count r;
     trip_distance := trip_distance r; lat := lat r; lon := lon r; cluster := c |}.

Fixpoint assign_labels (rs : list Row) (labels : list Z) : list Row :=
  match rs, labels with
  | r :: rs', c :: labels' => set_cluster r c :: assign_labels rs' labels'
  | _, _ => []
  end.

Definition clustering (rs : list Row) : option (list Row) :=
  option_map (assign_labels rs) (cluster_labels (map (fun r => (lat r, lon r)) rs)).

(** ** The predicate the filter implements, row by row *)

Definition keeps (start end_ passengers : Z) (lo hi : Q) (tod : list string)
    (r : Row) : bool :=
  (start <=? tpep_pickup_datetime r) && (tpep_pickup_datetime r <=? end_)
  && (passengers <=? passenger_count r)
  && (Qle_bool lo (trip_distance r) && Qle_bool (trip_distance r) hi)
  && existsb (String.eqb (period (hour r))) tod.

(** The four predicates of the filter, as propositions on a row. *)
Definition satisfies (start end_ passengers : Z) (lo hi : Q) (tod : list string)
    (r : Row) : Prop :=
  start <= tpep_pickup_datetime r <= end_
  /\ passengers <= passenger_count r
  /\ (lo <= trip_distance r /\ trip_distance r <= hi)%Q
  /\ In (period (hour r)) tod.

(** The frame bound to [dff] after line 174: the kept rows together with
    their freshly written ['period'] column. *)
Definition view_frame (start end_ passengers : Z) (lo hi : Q)
    (tod : list string) (F : Frame) : Frame :=
  let rs := List.filter (keeps start end_ passengers lo hi tod) (rows F) in
  {| rows := rs; col_period := Some (map (fun r => period (hour r)) rs) |}.

(** The figures are a function of the frame they are built from. *)
Definition figures_of (V : Frame) : Figures :=
  {| map_fig := map (fun r => (lat r, lon r, cluster r)) (rows V);
     time_fig := groupby_size (map hour (rows V));
     dist_fig := (map trip_distance (rows V), nbins);
     pass_fig := value_counts (map passenger_count (rows V)) |}.

(** What the figures look like when no row is left. *)
Definition empty_figures : Figures :=
  {| map_fig := []; time_fig := []; dist_fig := ([], nbins); pass_fig := [] |}.

(** ** Interactions

    Every change of a control makes Dash call the callback with the current
    values of the five inputs; an exception ends that call only, and the heap
    is whatever the call left behind. *)
Record Request : Type := mkRequest {
  req_start : Z;
  req_end : Z;
  req_passengers : Z;
  req_distance : list Q;
  req_tod : list string
}.

Definition handle (df : loc) (rq : Request) : Py Figures :=
  update_dashboard df (req_start rq) (req_end rq) (req_passengers rq)
    (req_distance rq) (req_tod rq).

Definition serve (df : loc) (rqs : list Request) (h : gmap loc Frame)
  : gmap loc Frame :=
  fold_left (fun h rq => snd (handle df rq h)) rqs h.

(** ** Reading the hourly projection by period *)

(** The trips of the (hour, Trips) rows whose hour falls in period [p]. *)
Definition bucket_count (p : string) (time_df : list (Z * nat)) : nat :=
  fold_right (fun '(hr, n) acc => if String.eqb (period hr) p then (n + acc)%nat else acc)
    0%nat time_df.

(** Whether hour [hr] counts towards period [p]. *)
Definition in_period (p : string) (hr : Z) : nat :=
  if String.eqb (period hr) p then 1%nat else 0%nat.

(** ** Clustering inputs without dense regions *)

(** How many points still carry the noise label. *)
Definition count_noise (labels : list Z) : nat :=
  length (List.filter (Z.eqb noise) labels).

(** [p] and [q] within [eps] of one another, scaled by the columns of [pts]. *)
Definition scaled_within (pts : list Point) (p q : Point) : bool :=
  within eps (variance (map fst pts)) (variance (map snd pts)) p q.

(** Every two points at different positions are farther than [eps] apart in
    standardized space. *)
Definition pairwise_far (pts : list Point) : Prop :=
  forall i j p q, i <> j -> pts !! i = Some p -> pts !! j = Some q ->
    scaled_within pts p q = false.

Definition all_identical (pts : list Point) : Prop :=
  forall p q, In p pts -> In q pts -> p = q.

(** ** A small dataset used for the worked examples *)

Definition R1 : Row := mkRow 0 100 7 1 2 1 (40 # 1) (-74 # 1) (-1).
Definition R2 : Row := mkRow 1 200 14 1 1 5 (40 # 1) (-74 # 1) (-1).
Definition R3 : Row := mkRow 2 300 20 1 3 (39 # 2) (40 # 1) (-74 # 1) (-1).

Definition demo_df : loc := 0%nat.
Definition demo_heap : gmap loc Frame :=
  {[ demo_df := mkFrame [R1; R2; R3] None ]}.

Definition all_periods : list string := ["morning"; "afternoon"; "evening"; "night"].

(** ** Following the labels through the clustering *)

(** What is done with the point in hand in one round of [expand]: the
    labels and the stack as they stand before the next point is taken off
    the stack. *)
Definition visit (core : list bool) (nbrs : list (list nat)) (label_num : Z)
    (i : nat) (stack : list nat) (labels : list Z) : list Z * list nat :=
  if unlabeled labels i then
    let labels1 := <[i := label_num]> labels in
    if default false (core !! i) then
      (labels1,
       (rev (List.filter (unlabeled labels1) (default [] (nbrs !! i)))
        ++ stack)%list)
    else (labels1, stack)
  else (labels, stack).

(** From [labels] to [labels']: each point keeps its label, or was noise
    and now carries [k]. *)
Definition grows (k : Z) (labels labels' : list Z) : Prop :=
  forall j, labels' !! j = labels !! j
            \/ (labels !! j = Some noise /\ labels' !! j = Some k).

(** ** Views and outcomes of a request *)

(** The filtering half of [handle] leaves [V] as the frame bound to [dff]. *)
Definition leaves_view (df : loc) (rq : Request) (h : gmap loc Frame)
    (V : Frame) : Prop :=
  exists l h',
    filter_view df (req_start rq) (req_end rq) (req_passengers rq)
      (req_distance rq) (req_tod rq) h = (Ok l, h')
    /\ h' !! l = Some V.

(** The point a row contributes to the scatter map. *)
Definition map_point (r : Row) : Q * Q * Z := (lat r, lon r, cluster r).

(** ** Reading the count tables *)

(** Occurrences of [k] in a column. *)
Definition count_of (k : Z) (xs : list Z) : nat :=
  length (List.filter (Z.eqb k) xs).

(** The trips recorded for key [k], and the trips of a whole table. *)
Definition trips_of (k : Z) (tbl : list (Z * nat)) : nat :=
  fold_right (fun e acc => if fst e =? k then (snd e + acc)%nat else acc) 0%nat tbl.

Definition total_trips (tbl : list (Z * nat)) : nat :=
  fold_right (fun e acc => (snd e + acc)%nat) 0%nat tbl.

(** Most frequent first. *)
Definition by_count_desc (a b : Z * nat) : Prop := (snd b <= snd a)%nat.

(** ** Feature derivation at start-up (lines 19-29)

    The sampled table provides the pickup instant, the passenger count and
    the distance of each trip.  [reset_index(drop=True)] numbers the rows
    from 0; [.dt.hour] and [.dt.date] read the hour of day and the day off
    the instant, counted in ticks ([ticks_per_hour] of them to the hour);
    the coordinate columns are the arrays computed on lines 28-29, given
    here by their entry at each position. *)
Record Trip : Type := mkTrip {
  trip_pickup : Z;
  trip_passengers : Z;
  trip_miles : Q
}.

Definition dt_hour (ticks_per_hour t : Z) : Z := (t / ticks_per_hour) mod 24.
Definition dt_date (ticks_per_hour t : Z) : Z := t / (24 * ticks_per_hour).

(** Rows as they stand after line 29; the ['cluster'] column only comes
    into being on line 38, until then the field holds the noise label. *)
Fixpoint enrich_from (ticks_per_hour : Z) (lat_at lon_at : nat -> Q)
    (i : nat) (trips : list Trip) : list Row :=
  match trips with
  | [] => []
  | t :: trips' =>
      {| ix := i;
         tpep_pickup_datetime := trip_pickup t;
         hour := dt_hour ticks_per_hour (trip_pickup t);
         date := dt_date ticks_per_hour (trip_pickup t);
         passenger_count := trip_passengers t;
         trip_distance := trip_miles t;
         lat := lat_at i;
         lon := lon_at i;
         cluster := noise |}
      :: enrich_from ticks_per_hour lat_at lon_at (S i) trips'
  end.

Definition enrich (ticks_per_hour : Z) (lat_at lon_at : nat -> Q)
    (trips : list Trip) : list Row :=
  enrich_from ticks_per_hour lat_at lon_at 0 trips.

(** Lines 22-38, on the table that line 19 sampled: feature derivation,
    then the cluster column. *)
Definition startup (ticks_per_hour : Z) (lat_at lon_at : nat -> Q)
    (trips : list Trip) : option (list Row) :=
  clustering (enrich ticks_per_hour lat_at lon_at trips).

(** ** Sampling (line 19) and the whole start-up script

    [df.sample(n=50000, random_state=42)] refuses a table with fewer than
    50000 rows ([ValueError]: a sample without replacement cannot be larger
    than the population).  Otherwise it keeps the rows at the positions the
    seeded generator draws, in the order drawn; the draw is given here as
    the list [pick] of those positions. *)
Definition sample_size : Z := 50000.

Inductive startup_exn : Type :=
| ValueError.   (* larger sample than population *)

Definition DataFrame_sample (n : Z) (pick : list nat) (table : list Trip)
  : startup_exn + list Trip :=
  if Z.of_nat (length table) <? n then inl ValueError
  else inr (omap (fun i => table !! i) pick).

(** Lines 19-38. *)
Definition startup_script (ticks_per_hour : Z) (lat_at lon_at : nat -> Q)
    (pick : list nat) (table : list Trip) : startup_exn + option (list Row) :=
  match DataFrame_sample sample_size pick table with
  | inl e => inl e
  | inr trips => inr (startup ticks_per_hour lat_at lon_at trips)
  end.

(** ** Initial values of the controls (lines 68-102)

    The date picker starts at the smallest and largest pickup instant of
    [df], the passenger slider at 1, the distance slider at [0, 20], and the
    checklist with all four periods ticked. *)
Definition Series_min (s : list Z) : option Z :=
  match s with
  | [] => None
  | x :: s' => Some (fold_left Z.min s' x)
  end.

Definition Series_max (s : list Z) : option Z :=
  match s with
  | [] => None
  | x :: s' => Some (fold_left Z.max s' x)
  end.

Definition initial_request (rs : list Row) : option Request :=
  match Series_min (map tpep_pickup_datetime rs),
        Series_max (map tpep_pickup_datetime rs) with
  | Some t0, Some t1 =>
      Some {| req_start := t0; req_end := t1; req_passengers := 1;
              req_distance := [0; 20]%Q; req_tod := all_periods |}
  | _, _ => None
  end.

(** ** More worked data *)

Definition demo_rq : Request :=
  mkRequest 0 1000 2 [0; 20]%Q ["morning"; "evening"].

Definition demo_view : Frame :=
  mkFrame [R1; R3] (Some ["morning"; "evening"]).

Definition demo_trips : list Trip :=
  [mkTrip 25200 2 1; mkTrip 136800 1 5; mkTrip 72000 3 (39 # 2)].

Definition R1' : Row := mkRow 0 25200 7 0 2 1 40 (-74) (-1).
Definition R2' : Row := mkRow 1 136800 14 1 1 5 40 (-74) (-1).
Definition R3' : Row := mkRow 2 72000 20 0 3 (39 # 2) 40 (-74) (-1).

(** * Properties *)

(** ** Masks and selections *)

Section Masks.
Context {A B : Type}.

Lemma select_map_filter (f : A -> bool) (xs : list A) :
  select (map f xs) xs = List.filter f xs.
Proof.
  induction xs as [|x xs IH]; simpl; [reflexivity|].
  destruct (f x); rewrite IH; reflexivity.
Qed.

Lemma select_map_map (f : A -> bool) (g : A -> B) (xs : list A) :
  select (map f xs) (map g xs) = map g (List.filter f xs).
Proof.
  induction xs as [|x xs IH]; simpl; [reflexivity|].
  destruct (f x); simpl; rewrite IH; reflexivity.
Qed.

Lemma mask_and_map (f g : A -> bool) (xs : list A) :
  mask_and (map f xs) (map g xs) = map (fun x => f x && g x) xs.
Proof.
  induction xs as [|x xs IH]; simpl; [reflexivity|].
  rewrite IH; reflexivity.
Qed.

Lemma filter_twice (f g : A -> bool) (xs : list A) :
  List.filter g (List.filter f xs) = List.filter (fun x => f x && g x) xs.
Proof.
  induction xs as [|x xs IH]; simpl; [reflexivity|].
  destruct (f x); simpl; [destruct (g x)|]; rewrite IH; reflexivity.
Qed.
End Masks.

(** ** One-step evaluation of the primitives *)

Section Steps.
Variable h : gmap loc Frame.

Lemma bind_ok {A B} (c : Py A) (k : A -> Py B) a h' :
  c h = (Ok a, h') -> bind c k h = k a h'.
Proof. intros E; unfold bind; rewrite E; reflexivity. Qed.

Lemma bind_raise {A B} (c : Py A) (k : A -> Py B) e h' :
  c h = (Raise e, h') -> bind c k h = (Raise e, h').
Proof. intros E; unfold bind; rewrite E; reflexivity. Qed.

Lemma getitem_col_run {A} (f : Row -> A) l F :
  h !! l = Some F -> getitem_col f l h = (Ok (map f (rows F)), h).
Proof. intros E; unfold getitem_col, bind, deref; rewrite E; reflexivity. Qed.

Lemma getitem_period_run l F c :
  h !! l = Some F -> col_period F = Some c -> getitem_period l h = (Ok c, h).
Proof.
  intros E Ec; unfold getitem_period, bind, deref; rewrite E, Ec; reflexivity.
Qed.

Lemma DataFrame_copy_run l F :
  h !! l = Some F ->
  DataFrame_copy l h = (Ok (fresh (dom h)), <[fresh (dom h) := F]> h).
Proof. intros E; unfold DataFrame_copy, bind, deref; rewrite E; reflexivity. Qed.

Lemma getitem_mask_run l F mask :
  h !! l = Some F ->
  getitem_mask l mask h =
    (Ok (fresh (dom h)),
     <[fresh (dom h) := {| rows := select mask (rows F);
                           col_period := option_map (select mask) (col_period F) |}]> h).
Proof. intros E; unfold getitem_mask, bind, deref; rewrite E; reflexivity. Qed.

Lemma setitem_period_run l F s :
  h !! l = Some F ->
  setitem_period l s h =
    (Ok tt, <[l := {| rows := rows F; col_period := Some s |}]> h).
Proof. intros E; unfold setitem_period, bind, deref; rewrite E; reflexivity. Qed.

Lemma fresh_unbound : h !! fresh (dom h) = None.
Proof. apply not_elem_of_dom, is_fresh. Qed.

Lemma alloc_extends (F : Frame) : h ⊆ <[fresh (dom h) := F]> h.
Proof. apply insert_subseteq, fresh_unbound. Qed.
End Steps.

(** ** What the filtering half computes *)

Lemma filter_view_run h df F start end_ passengers lo hi rest tod :
  h !! df = Some F ->
  exists l h',
    filter_view df start end_ passengers (lo :: hi :: rest) tod h = (Ok l, h')
    /\ h' !! l = Some (view_frame start end_ passengers lo hi tod F)
    /\ h ⊆ h'.
Proof.
  intros Hdf. unfold filter_view.
  (* dff = df.copy() *)
  erewrite bind_ok by (apply DataFrame_copy_run; exact Hdf).
  set (l1 := fresh (dom h)). set (h1 := <[l1 := F]> h).
  assert (H1 : h1 !! l1 = Some F) by apply lookup_insert_eq.
  assert (S1 : h ⊆ h1) by apply alloc_extends.
  (* the date mask *)
  do 2 (erewrite bind_ok by (apply getitem_col_run; exact H1)).
  erewrite bind_ok by (apply getitem_mask_run; exact H1).
  unfold Series_ge_Z, Series_le_Z. rewrite !map_map, mask_and_map, select_map_filter.
  set (l2 := fresh (dom h1)). set (F2 := mkFrame _ _). set (h2 := <[l2 := F2]> h1).
  assert (H2 : h2 !! l2 = Some F2) by apply lookup_insert_eq.
  assert (S2 : h1 ⊆ h2) by apply alloc_extends.
  (* the passenger mask *)
  erewrite bind_ok by (apply getitem_col_run; exact H2).
  erewrite bind_ok by (apply getitem_mask_run; exact H2).
  rewrite map_map. subst F2; cbn [rows col_period]. rewrite select_map_filter, filter_twice.
  set (l3 := fresh (dom h2)). set (F3 := mkFrame _ _). set (h3 := <[l3 := F3]> h2).
  assert (H3 : h3 !! l3 = Some F3) by apply lookup_insert_eq.
  assert (S3 : h2 ⊆ h3) by apply alloc_extends.
  (* the distance mask *)
  erewrite bind_ok by (apply getitem_col_run; exact H3).
  erewrite bind_ok by reflexivity.
  erewrite bind_ok by (apply getitem_col_run; exact H3).
  erewrite bind_ok by reflexivity.
  erewrite bind_ok by (apply getitem_mask_run; exact H3).
  unfold Series_ge_Q, Series_le_Q. rewrite !map_map, mask_and_map.
  subst F3; cbn [rows col_period]. rewrite select_map_filter, filter_twice.
  set (l4 := fresh (dom h3)). set (F4 := mkFrame _ _). set (h4 := <[l4 := F4]> h3).
  assert (H4 : h4 !! l4 = Some F4) by apply lookup_insert_eq.
  assert (S4 : h3 ⊆ h4) by apply alloc_extends.
  (* the period column, written into the frame just allocated *)
  erewrite bind_ok by (apply getitem_col_run; exact H4).
  erewrite bind_ok by (apply setitem_period_run; exact H4).
  subst h4. rewrite insert_insert_eq.
  set (F5 := mkFrame _ _). set (h5 := <[l4 := F5]> h3).
  assert (H5 : h5 !! l4 = Some F5) by apply lookup_insert_eq.
  assert (S5 : h3 ⊆ h5) by apply alloc_extends.
  erewrite bind_ok by (apply getitem_period_run with (F := F5); [exact H5 | reflexivity]).
  (* the time-of-day mask *)
  rewrite (getitem_mask_run h5 l4 F5) by exact H5.
  eexists _, _. split; [reflexivity|]. split.
  - rewrite lookup_insert_eq. unfold view_frame, Series_isin, Series_apply.
    subst F5 F4; cbn [rows col_period option_map].
    rewrite !map_map, select_map_filter, select_map_map, filter_twice.
    reflexivity.
  - etrans; [exact S1|]. etrans; [exact S2|]. etrans; [exact S3|].
    etrans; [exact S5|]. apply alloc_extends.
Qed.

(** A pass only ever adds objects to the heap: whatever was there before is
    still there, with the same contents, whether the pass returns or raises. *)
Ltac heap_grows :=
  repeat first [ reflexivity | etrans; [| apply alloc_extends] ].

(** [distance] shorter than two entries: the subscript raises, after the
    first two selections have been allocated. *)
Lemma filter_view_short h df F start end_ passengers distance tod :
  h !! df = Some F ->
  (length distance < 2)%nat ->
  exists h',
    filter_view df start end_ passengers distance tod h = (Raise IndexError, h')
    /\ h ⊆ h'.
Proof.
  intros Hdf Hlen. unfold filter_view.
  erewrite bind_ok by (apply DataFrame_copy_run; exact Hdf).
  do 2 (erewrite bind_ok by (apply getitem_col_run, lookup_insert_eq)).
  erewrite bind_ok by (apply getitem_mask_run, lookup_insert_eq).
  erewrite bind_ok by (apply getitem_col_run, lookup_insert_eq).
  erewrite bind_ok by (apply getitem_mask_run, lookup_insert_eq).
  erewrite bind_ok by (apply getitem_col_run, lookup_insert_eq).
  destruct distance as [|lo [|hi rest]]; [| |simpl in Hlen; lia].
  - erewrite bind_raise by reflexivity.
    eexists; split; [reflexivity|]. heap_grows.
  - erewrite bind_ok by reflexivity.
    erewrite bind_ok by (apply getitem_col_run, lookup_insert_eq).
    erewrite bind_raise by reflexivity.
    eexists; split; [reflexivity|]. heap_grows.
Qed.

(** No frame behind [df]: the very first statement raises. *)
Lemma filter_view_unbound h df start end_ passengers distance tod :
  h !! df = None ->
  filter_view df start end_ passengers distance tod h = (Raise NameError, h).
Proof.
  intros Hdf. unfold filter_view, DataFrame_copy, bind, deref.
  rewrite Hdf. reflexivity.
Qed.

Lemma filter_view_extends h df start end_ passengers distance tod :
  h ⊆ snd (filter_view df start end_ passengers distance tod h).
Proof.
  destruct (h !! df) as [F|] eqn:Hdf.
  - destruct distance as [|lo [|hi rest]].
    + destruct (filter_view_short h df F start end_ passengers [] tod Hdf)
        as (h' & E & Hsub); [simpl; lia|]. rewrite E. exact Hsub.
    + destruct (filter_view_short h df F start end_ passengers [lo] tod Hdf)
        as (h' & E & Hsub); [simpl; lia|]. rewrite E. exact Hsub.
    + destruct (filter_view_run h df F start end_ passengers lo hi rest tod Hdf)
        as (l & h' & E & _ & Hsub).
      rewrite E. exact Hsub.
  - rewrite filter_view_unbound by exact Hdf. reflexivity.
Qed.


Lemma build_figures_run h l V :
  h !! l = Some V -> build_figures l h = (Ok (figures_of V), h).
Proof.
  intros E. unfold build_figures.
  do 4 (erewrite bind_ok by (apply getitem_col_run; exact E)).
  reflexivity.
Qed.

Lemma update_dashboard_run h df F start end_ passengers lo hi rest tod :
  h !! df = Some F ->
  exists h',
    update_dashboard df start end_ passengers (lo :: hi :: rest) tod h
    = (Ok (figures_of (view_frame start end_ passengers lo hi tod F)), h')
    /\ h ⊆ h'.
Proof.
  intros Hdf.
  destruct (filter_view_run h df F start end_ passengers lo hi rest tod Hdf)
    as (l & h' & E & Hl & Hsub).
  exists h'. split; [|exact Hsub].
  unfold update_dashboard. erewrite bind_ok by exact E.
  apply build_figures_run, Hl.
Qed.

Lemma update_dashboard_short h df F start end_ passengers distance tod :
  h !! df = Some F ->
  (length distance < 2)%nat ->
  exists h',
    update_dashboard df start end_ passengers distance tod h
    = (Raise IndexError, h') /\ h ⊆ h'.
Proof.
  intros Hdf Hlen.
  destruct (filter_view_short h df F start end_ passengers distance tod Hdf Hlen)
    as (h' & E & Hsub).
  exists h'. split; [|exact Hsub].
  unfold update_dashboard. erewrite bind_raise by exact E. reflexivity.
Qed.

Lemma update_dashboard_unbound h df start end_ passengers distance tod :
  h !! df = None ->
  update_dashboard df start end_ passengers distance tod h = (Raise NameError, h).
Proof.
  intros Hdf. unfold update_dashboard.
  erewrite bind_raise by (apply filter_view_unbound; exact Hdf). reflexivity.
Qed.

Lemma update_dashboard_extends h df start end_ passengers distance tod :
  h ⊆ snd (update_dashboard df start end_ passengers distance tod h).
Proof.
  destruct (h !! df) as [F|] eqn:Hdf.
  - destruct distance as [|lo [|hi rest]].
    + destruct (update_dashboard_short h df F start end_ passengers [] tod Hdf)
        as (h' & E & Hsub); [simpl; lia|]. rewrite E. exact Hsub.
    + destruct (update_dashboard_short h df F start end_ passengers [lo] tod Hdf)
        as (h' & E & Hsub); [simpl; lia|]. rewrite E. exact Hsub.
    + destruct (update_dashboard_run h df F start end_ passengers lo hi rest tod Hdf)
        as (h' & E & Hsub).
      rewrite E. exact Hsub.
  - rewrite update_dashboard_unbound by exact Hdf. reflexivity.
Qed.

(** The outcome of a pass (figures or exception) depends on the heap only
    through the contents of [df]. *)
Lemma update_dashboard_outcome h1 h2 df start end_ passengers distance tod :
  h1 !! df = h2 !! df ->
  fst (update_dashboard df start end_ passengers distance tod h1)
  = fst (update_dashboard df start end_ passengers distance tod h2).
Proof.
  intros Heq.
  destruct (h1 !! df) as [F|] eqn:Hdf; symmetry in Heq.
  - destruct distance as [|lo [|hi rest]].
    + destruct (update_dashboard_short h1 df F start end_ passengers [] tod Hdf)
        as (h1' & E1 & _); [simpl; lia|].
      destruct (update_dashboard_short h2 df F start end_ passengers [] tod Heq)
        as (h2' & E2 & _); [simpl; lia|].
      rewrite E1, E2. reflexivity.
    + destruct (update_dashboard_short h1 df F start end_ passengers [lo] tod Hdf)
        as (h1' & E1 & _); [simpl; lia|].
      destruct (update_dashboard_short h2 df F start end_ passengers [lo] tod Heq)
        as (h2' & E2 & _); [simpl; lia|].
      rewrite E1, E2. reflexivity.
    + destruct (update_dashboard_run h1 df F start end_ passengers lo hi rest tod Hdf)
        as (h1' & E1 & _).
      destruct (update_dashboard_run h2 df F start end_ passengers lo hi rest tod Heq)
        as (h2' & E2 & _).
      rewrite E1, E2. reflexivity.
  - rewrite !update_dashboard_unbound by assumption. reflexivity.
Qed.

(** Contents of [df] survive a pass. *)
Lemma update_dashboard_df h df start end_ passengers distance tod :
  snd (update_dashboard df start end_ passengers distance tod h) !! df = h !! df.
Proof.
  pose proof (update_dashboard_extends h df start end_ passengers distance tod) as Hsub.
  destruct (h !! df) as [F|] eqn:Hdf.
  - eapply lookup_weaken; eassumption.
  - rewrite update_dashboard_unbound by exact Hdf. exact Hdf.
Qed.

(** ** Clustering: inputs without core points *)

Section NoCore.
Context {A : Type}.

Lemma indices_where_length (f : A -> bool) k xs :
  (length (indices_where f k xs) <= length xs)%nat.
Proof.
  revert k; induction xs as [|x xs IH]; intros k; simpl; [lia|].
  destruct (f x); simpl; specialize (IH (S k)); lia.
Qed.

Lemma indices_where_none (f : A -> bool) k xs :
  (forall j x, xs !! j = Some x -> f x = false) ->
  indices_where f k xs = [].
Proof.
  revert k; induction xs as [|x xs IH]; intros k Hf; simpl; [reflexivity|].
  rewrite (Hf 0%nat x) by reflexivity.
  apply IH. intros j y Hj. apply (Hf (S j)). exact Hj.
Qed.

Lemma indices_where_single (f : A -> bool) i k xs :
  (forall j x, xs !! j = Some x -> j <> i -> f x = false) ->
  (length (indices_where f k xs) <= 1)%nat.
Proof.
  revert i k; induction xs as [|x xs IH]; intros i k Hf; simpl; [lia|].
  destruct i as [|i].
  - rewrite (indices_where_none f (S k) xs).
    + destruct (f x); simpl; lia.
    + intros j y Hj. apply (Hf (S j)); [exact Hj | lia].
  - rewrite (Hf 0%nat x) by (reflexivity || lia).
    apply (IH i). intros j y Hj Hne. apply (Hf (S j)); [exact Hj | lia].
Qed.
End NoCore.

Lemma scan_no_core fuel core nbrs todo k labels :
  (forall i, core !! i = Some true -> False) ->
  scan fuel core nbrs todo k labels = Some labels.
Proof.
  intros Hcore. induction todo as [|i todo IH]; simpl; [reflexivity|].
  destruct (core !! i) as [[|]|] eqn:E; simpl.
  - destruct (Hcore i E).
  - rewrite orb_true_r. exact IH.
  - rewrite orb_true_r. exact IH.
Qed.

Lemma DBSCAN_no_core e ms pts :
  (forall ns, In ns (neighborhoods e pts) -> (length ns < ms)%nat) ->
  DBSCAN e ms pts = Some (repeat noise (length pts)).
Proof.
  intros Hsmall. unfold DBSCAN. apply scan_no_core.
  intros i Hi. rewrite list_lookup_fmap in Hi.
  destruct (neighborhoods e pts !! i) as [ns|] eqn:E; simpl in Hi; [|discriminate].
  injection Hi as Hi. apply Nat.leb_le in Hi.
  assert (In ns (neighborhoods e pts)) as Hin
    by (apply list_elem_of_In, list_elem_of_lookup; eauto).
  specialize (Hsmall ns Hin). lia.
Qed.

Lemma neighborhoods_elem e pts ns :
  In ns (neighborhoods e pts) ->
  exists i p, pts !! i = Some p /\
    ns = indices_where
           (within e (variance (map fst pts)) (variance (map snd pts)) p) 0 pts.
Proof.
  unfold neighborhoods. intros Hin.
  apply list_elem_of_In, list_elem_of_lookup in Hin as [i Hi].
  rewrite list_lookup_fmap in Hi.
  destruct (pts !! i) as [p|] eqn:E; simpl in Hi; [|discriminate].
  injection Hi as <-. eauto.
Qed.

Lemma few_points_all_noise e ms pts :
  (length pts < ms)%nat ->
  DBSCAN e ms pts = Some (repeat noise (length pts)).
Proof.
  intros Hlen. apply DBSCAN_no_core. intros ns Hin.
  apply neighborhoods_elem in Hin as (i & p & _ & ->).
  pose proof (indices_where_length
    (within e (variance (map fst pts)) (variance (map snd pts)) p) 0 pts).
  lia.
Qed.

Lemma far_points_all_noise pts :
  pairwise_far pts ->
  cluster_labels pts = Some (repeat noise (length pts)).
Proof.
  intros Hfar. apply DBSCAN_no_core. intros ns Hin.
  apply neighborhoods_elem in Hin as (i & p & Hp & ->).
  apply Nat.le_lt_trans with 1%nat; [|unfold min_samples; lia].
  apply indices_where_single with (i := i).
  intros j q Hq Hne. apply (Hfar i j p q); [congruence | exact Hp | exact Hq].
Qed.

(** ** Row predicates *)

Lemma keeps_satisfies start end_ passengers lo hi tod r :
  keeps start end_ passengers lo hi tod r = true
  <-> satisfies start end_ passengers lo hi tod r.
Proof.
  unfold keeps, satisfies.
  rewrite !andb_true_iff, !Z.leb_le, !Qle_bool_iff, existsb_exists.
  split.
  - intros [[[[Ha Hb] Hc] [Hd He]] (p & Hin & Hp)].
    apply String.eqb_eq in Hp. subst p. tauto.
  - intros ([Ha Hb] & Hc & [Hd He] & Hin).
    repeat split; try assumption.
    exists (period (hour r)). split; [exact Hin | apply String.eqb_refl].
Qed.

Lemma filter_sublist {A} (f : A -> bool) (xs : list A) :
  List.filter f xs `sublist_of` xs.
Proof.
  induction xs as [|x xs IH]; simpl; [constructor|].
  destruct (f x); [apply sublist_skip | apply sublist_cons]; exact IH.
Qed.

Lemma filter_none {A} (f : A -> bool) (xs : list A) :
  (forall x, In x xs -> f x = false) -> List.filter f xs = [].
Proof.
  induction xs as [|x xs IH]; intros Hf; simpl; [reflexivity|].
  rewrite (Hf x) by (left; reflexivity).
  apply IH. intros y Hy. apply Hf. right; exact Hy.
Qed.

Lemma filter_all {A} (f : A -> bool) (xs : list A) :
  (forall x, In x xs -> f x = true) -> List.filter f xs = xs.
Proof.
  induction xs as [|x xs IH]; intros Hf; simpl; [reflexivity|].
  rewrite (Hf x) by (left; reflexivity).
  f_equal. apply IH. intros y Hy. apply Hf. right; exact Hy.
Qed.

Lemma figures_of_empty F : rows F = [] -> figures_of F = empty_figures.
Proof. intros E. unfold figures_of. rewrite E. reflexivity. Qed.

(** ** Counting through the hourly projection *)

Lemma bucket_count_tally p k acc :
  bucket_count p (tally_sorted k acc) = (in_period p k + bucket_count p acc)%nat.
Proof.
  unfold in_period.
  induction acc as [|[k' n] acc IH]; simpl.
  - destruct (String.eqb (period k) p); lia.
  - destruct (k <? k'); [simpl; destruct (String.eqb (period k) p); lia|].
    destruct (k =? k') eqn:E.
    + apply Z.eqb_eq in E. subst k'. simpl.
      destruct (String.eqb (period k) p); lia.
    + simpl. rewrite IH.
      destruct (String.eqb (period k') p), (String.eqb (period k) p); lia.
Qed.

Lemma bucket_count_fold p hs acc :
  bucket_count p (fold_left (fun acc k => tally_sorted k acc) hs acc)
  = (length (List.filter (fun hr => String.eqb (period hr) p) hs)
     + bucket_count p acc)%nat.
Proof.
  revert acc; induction hs as [|hr hs IH]; intros acc; simpl; [reflexivity|].
  rewrite IH, bucket_count_tally. unfold in_period.
  destruct (String.eqb (period hr) p); simpl; lia.
Qed.

Lemma bucket_count_groupby p hs :
  bucket_count p (groupby_size hs)
  = length (List.filter (fun hr => String.eqb (period hr) p) hs).
Proof. unfold groupby_size. rewrite bucket_count_fold. simpl. lia. Qed.

Lemma period_cases hr :
  period hr = "morning" \/ period hr = "afternoon"
  \/ period hr = "evening" \/ period hr = "night".
Proof.
  unfold period.
  destruct ((6 <=? hr) && (hr <? 12)); [tauto|].
  destruct ((12 <=? hr) && (hr <? 18)); [tauto|].
  destruct ((18 <=? hr) && (hr <? 24)); tauto.
Qed.

Lemma four_periods_partition hs :
  (length (List.filter (fun hr => String.eqb (period hr) "morning") hs)
   + length (List.filter (fun hr => String.eqb (period hr) "afternoon") hs)
   + length (List.filter (fun hr => String.eqb (period hr) "evening") hs)
   + length (List.filter (fun hr => String.eqb (period hr) "night") hs))%nat
  = length hs.
Proof.
  induction hs as [|hr hs IH]; simpl; [reflexivity|].
  destruct (period_cases hr) as [E|[E|[E|E]]]; rewrite E; simpl; lia.
Qed.

Lemma bucket_counts_total hs :
  (bucket_count "morning" (groupby_size hs)
   + bucket_count "afternoon" (groupby_size hs)
   + bucket_count "evening" (groupby_size hs)
   + bucket_count "night" (groupby_size hs))%nat
  = length hs.
Proof. rewrite !bucket_count_groupby. apply four_periods_partition. Qed.

(** ** The dataset across interactions *)

Lemma serve_cons df rq rqs h :
  serve df (rq :: rqs) h = serve df rqs (snd (handle df rq h)).
Proof. reflexivity. Qed.

Lemma serve_df df rqs h : serve df rqs h !! df = h !! df.
Proof.
  revert h; induction rqs as [|rq rqs IH]; intros h; [reflexivity|].
  rewrite serve_cons, IH. apply update_dashboard_df.
Qed.

Lemma serve_extends df rqs h : h ⊆ serve df rqs h.
Proof.
  revert h; induction rqs as [|rq rqs IH]; intros h; [reflexivity|].
  rewrite serve_cons. etrans; [|apply IH]. apply update_dashboard_extends.
Qed.

(** * The claims *)

(** C1. For every dataset behind [df] and every filter setting, the pass
    returns a view whose records are exactly the records of the dataset that
    satisfy all four predicates: pickup instant between [start] and [end_]
    (both bounds included), at least [passengers] passengers, distance
    between [lo] and [hi] (both bounds included), and time-of-day bucket
    among [tod]. *)
Theorem filter_keeps_exactly_the_matching_records
    h df F start end_ passengers lo hi tod :
  h !! df = Some F ->
  exists l h' V,
    filter_view df start end_ passengers [lo; hi] tod h = (Ok l, h')
    /\ h' !! l = Some V
    /\ rows V = List.filter (keeps start end_ passengers lo hi tod) (rows F)
    /\ forall r, In r (rows V) <->
                 In r (rows F) /\ satisfies start end_ passengers lo hi tod r.
Proof.
  intros Hdf.
  destruct (filter_view_run h df F start end_ passengers lo hi [] tod Hdf)
    as (l & h' & E & Hl & _).
  exists l, h', (view_frame start end_ passengers lo hi tod F).
  split; [exact E|]. split; [exact Hl|]. split; [reflexivity|].
  intros r. unfold view_frame; cbn [rows].
  rewrite filter_In, keeps_satisfies. reflexivity.
Qed.

Lemma filter_keeps_exactly_the_matching_records_witness :
  demo_heap !! demo_df = Some (mkFrame [R1; R2; R3] None)
  /\ exists l h' V,
       filter_view demo_df 0 1000 2 [0; 20]%Q ["morning"; "evening"] demo_heap
       = (Ok l, h')
       /\ h' !! l = Some V
       /\ rows V = List.filter (keeps 0 1000 2 0 20 ["morning"; "evening"]) [R1; R2; R3]
       /\ forall r, In r (rows V) <->
                    In r [R1; R2; R3]
                    /\ satisfies 0 1000 2 0 20 ["morning"; "evening"] r.
Proof.
  split; [reflexivity|].
  apply (filter_keeps_exactly_the_matching_records
           demo_heap demo_df (mkFrame [R1; R2; R3] None)).
  reflexivity.
Defined.

(** A record whose distance is exactly the upper bound is kept. *)
Example upper_bound_is_included :
  keeps 0 1000 1 0 (39 # 2) all_periods R3 = true
  /\ keeps 0 1000 1 0 (19 # 1) all_periods R3 = false.
Proof. split; reflexivity. Qed.

(** C2. The bucket is a function of the hour alone, and on the hours of a
    day the four half-open intervals [6,12), [12,18), [18,24) and [0,6)
    name morning, afternoon, evening and night: each hour from 0 to 23 lies
    in one interval and gets that interval's bucket, and no other. *)
Theorem period_buckets (hr : Z) :
  0 <= hr < 24 ->
  (period hr = "morning" <-> 6 <= hr < 12)
  /\ (period hr = "afternoon" <-> 12 <= hr < 18)
  /\ (period hr = "evening" <-> 18 <= hr < 24)
  /\ (period hr = "night" <-> 0 <= hr < 6)
  /\ In (period hr) all_periods.
Proof.
  intros Hr. unfold period, all_periods.
  destruct (Z.leb_spec 6 hr), (Z.ltb_spec hr 12),
           (Z.leb_spec 12 hr), (Z.ltb_spec hr 18),
           (Z.leb_spec 18 hr), (Z.ltb_spec hr 24);
    simpl; try lia;
    (repeat split; try (intros; lia); try discriminate; try reflexivity; tauto).
Qed.

Lemma period_buckets_witness :
  0 <= 7 < 24
  /\ (period 7 = "morning" <-> 6 <= 7 < 12)
  /\ (period 7 = "afternoon" <-> 12 <= 7 < 18)
  /\ (period 7 = "evening" <-> 18 <= 7 < 24)
  /\ (period 7 = "night" <-> 0 <= 7 < 6)
  /\ In (period 7) all_periods.
Proof.
  split; [lia|]. apply (period_buckets 7). lia.
Defined.

(** The ['period'] column of the view is [period] applied to its ['hour']
    column, row by row. *)
Lemma view_period_column start end_ passengers lo hi tod F :
  col_period (view_frame start end_ passengers lo hi tod F)
  = Some (Series_apply period
            (map hour (rows (view_frame start end_ passengers lo hi tod F)))).
Proof. unfold view_frame, Series_apply. simpl. rewrite map_map. reflexivity. Qed.

(** C3. The view returned by the pass is a subsequence of the dataset, in
    dataset order: rows are neither reordered nor repeated (index labels
    that were distinct stay distinct). *)
Theorem filter_is_a_stable_subsequence
    h df F start end_ passengers lo hi tod :
  h !! df = Some F ->
  exists l h' V,
    filter_view df start end_ passengers [lo; hi] tod h = (Ok l, h')
    /\ h' !! l = Some V
    /\ rows V `sublist_of` rows F
    /\ (NoDup (map ix (rows F)) -> NoDup (map ix (rows V))).
Proof.
  intros Hdf.
  destruct (filter_view_run h df F start end_ passengers lo hi [] tod Hdf)
    as (l & h' & E & Hl & _).
  exists l, h', (view_frame start end_ passengers lo hi tod F).
  assert (Hsub : rows (view_frame start end_ passengers lo hi tod F)
                 `sublist_of` rows F) by apply filter_sublist.
  repeat split; try assumption.
  intros Hnd. eapply sublist_NoDup; [exact Hnd|].
  apply (fmap_sublist ix), Hsub.
Qed.

Lemma filter_is_a_stable_subsequence_witness :
  demo_heap !! demo_df = Some (mkFrame [R1; R2; R3] None)
  /\ exists l h' V,
       filter_view demo_df 0 1000 2 [0; 20]%Q ["morning"; "evening"] demo_heap
       = (Ok l, h')
       /\ h' !! l = Some V
       /\ rows V `sublist_of` [R1; R2; R3]
       /\ (NoDup (map ix [R1; R2; R3]) -> NoDup (map ix (rows V))).
Proof.
  split; [reflexivity|].
  apply (filter_is_a_stable_subsequence
           demo_heap demo_df (mkFrame [R1; R2; R3] None)).
  reflexivity.
Defined.

(** C4. Whatever sequence of interactions is served, the frame behind [df]
    is afterwards what it was before: same rows, hence same cluster labels. *)
Theorem dataset_is_never_mutated df rqs h F :
  h !! df = Some F ->
  serve df rqs h !! df = Some F
  /\ forall F', serve df rqs h !! df = Some F' ->
                rows F' = rows F
                /\ map cluster (rows F') = map cluster (rows F).
Proof.
  intros Hdf. rewrite serve_df, Hdf. split; [reflexivity|].
  intros F' [= <-]. split; reflexivity.
Qed.

Lemma dataset_is_never_mutated_witness :
  let rqs := [mkRequest 0 1000 2 [0; 20]%Q ["morning"; "evening"];
              mkRequest 5 1 1 [3 # 1]%Q [];
              mkRequest 0 250 1 [0; 5]%Q all_periods] in
  demo_heap !! demo_df = Some (mkFrame [R1; R2; R3] None)
  /\ serve demo_df rqs demo_heap !! demo_df = Some (mkFrame [R1; R2; R3] None)
  /\ forall F', serve demo_df rqs demo_heap !! demo_df = Some F' ->
                rows F' = [R1; R2; R3]
                /\ map cluster (rows F') = map cluster [R1; R2; R3].
Proof.
  intros rqs. split; [reflexivity|].
  apply (dataset_is_never_mutated demo_df rqs demo_heap
           (mkFrame [R1; R2; R3] None)).
  reflexivity.
Defined.

Lemma keeps_nonmonotonic start end_ passengers lo hi tod r :
  start > end_ \/ (lo > hi)%Q ->
  keeps start end_ passengers lo hi tod r = false.
Proof.
  intros Hbad. apply not_true_is_false. intros Hk.
  apply keeps_satisfies in Hk as (Ht & _ & [Hlo Hhi] & _).
  destruct Hbad as [Hz|Hq]; [lia|].
  apply (Qlt_not_le _ _ Hq). eapply Qle_trans; eassumption.
Qed.

(** C5, as the callback behaves.  There is no validation of the filter
    setting: when [start] is after [end_], or [lo] is above [hi], no row can
    satisfy the corresponding pair of comparisons, and the pass returns the
    four figures of an empty view instead of raising. *)
Theorem nonmonotonic_range_gives_empty_figures
    h df F start end_ passengers lo hi tod :
  h !! df = Some F ->
  start > end_ \/ (lo > hi)%Q ->
  fst (update_dashboard df start end_ passengers [lo; hi] tod h)
  = Ok empty_figures.
Proof.
  intros Hdf Hbad.
  destruct (update_dashboard_run h df F start end_ passengers lo hi [] tod Hdf)
    as (h' & E & _).
  rewrite E. cbn [fst]. f_equal. apply figures_of_empty.
  unfold view_frame; cbn [rows]. apply filter_none.
  intros r _. apply keeps_nonmonotonic, Hbad.
Qed.

Lemma nonmonotonic_range_gives_empty_figures_witness :
  demo_heap !! demo_df = Some (mkFrame [R1; R2; R3] None)
  /\ (10 > 5 \/ (0 > 20)%Q)
  /\ fst (update_dashboard demo_df 10 5 1 [0; 20]%Q all_periods demo_heap)
     = Ok empty_figures.
Proof.
  split; [reflexivity|]. split; [left; reflexivity|].
  apply (nonmonotonic_range_gives_empty_figures
           demo_heap demo_df (mkFrame [R1; R2; R3] None));
    [reflexivity | left; reflexivity].
Defined.

(** C5, as claimed, fails: with [start = 10] after [end_ = 5] (and likewise
    with [lo = 20] above [hi = 0]) the pass raises nothing and returns
    figures. *)
Lemma nonmonotonic_range_does_not_raise :
  10 > 5
  /\ fst (update_dashboard demo_df 10 5 1 [0; 20]%Q all_periods demo_heap)
     = Ok empty_figures
  /\ (20 > 0)%Q
  /\ fst (update_dashboard demo_df 0 1000 1 [20; 0]%Q all_periods demo_heap)
     = Ok empty_figures
  /\ ~ (forall h df F start end_ passengers lo hi tod,
          h !! df = Some F ->
          start > end_ \/ (lo > hi)%Q ->
          exists e,
            fst (update_dashboard df start end_ passengers [lo; hi] tod h)
            = Raise e).
Proof.
  split; [reflexivity|]. split; [vm_compute; reflexivity|].
  split; [reflexivity|]. split; [vm_compute; reflexivity|].
  intros Hclaim.
  destruct (Hclaim demo_heap demo_df (mkFrame [R1; R2; R3] None)
              10 5 1 0%Q 20%Q all_periods) as [e He];
    [reflexivity | left; reflexivity |].
  vm_compute in He. discriminate He.
Qed.

(** C6. When no record of the dataset satisfies the four predicates, the
    pass still returns, and what it returns is the four empty figures: no
    map points, no hourly rows, an empty histogram sample, no passenger
    rows. *)
Theorem empty_view_gives_empty_figures
    h df F start end_ passengers lo hi tod :
  h !! df = Some F ->
  (forall r, In r (rows F) -> ~ satisfies start end_ passengers lo hi tod r) ->
  fst (update_dashboard df start end_ passengers [lo; hi] tod h)
  = Ok empty_figures.
Proof.
  intros Hdf Hnone.
  destruct (update_dashboard_run h df F start end_ passengers lo hi [] tod Hdf)
    as (h' & E & _).
  rewrite E. cbn [fst]. f_equal. apply figures_of_empty.
  unfold view_frame; cbn [rows]. apply filter_none.
  intros r Hin. apply not_true_is_false. intros Hk.
  apply (Hnone r Hin), keeps_satisfies, Hk.
Qed.

Lemma empty_view_gives_empty_figures_witness :
  demo_heap !! demo_df = Some (mkFrame [R1; R2; R3] None)
  /\ (forall r, In r [R1; R2; R3] -> ~ satisfies 0 1000 4 0 20 all_periods r)
  /\ fst (update_dashboard demo_df 0 1000 4 [0; 20]%Q all_periods demo_heap)
     = Ok empty_figures.
Proof.
  assert (Hnone :
    forall r, In r [R1; R2; R3] -> ~ satisfies 0 1000 4 0 20 all_periods r).
  { intros r Hin (_ & Hp & _).
    destruct Hin as [<-|[<-|[<-|[]]]]; simpl in Hp; lia. }
  split; [reflexivity|]. split; [exact Hnone|].
  apply (empty_view_gives_empty_figures
           demo_heap demo_df (mkFrame [R1; R2; R3] None));
    [reflexivity | exact Hnone].
Defined.

(** C8. Running the pass a second time with the same arguments, on the heap
    the first run left behind, gives the same outcome: the same four figures
    (or the same exception), and a view with the same contents. *)
Theorem pass_is_repeatable h df start end_ passengers distance tod :
  let h1 := snd (update_dashboard df start end_ passengers distance tod h) in
  fst (update_dashboard df start end_ passengers distance tod h1)
  = fst (update_dashboard df start end_ passengers distance tod h)
  /\ forall l l' hv hv',
       filter_view df start end_ passengers distance tod h = (Ok l, hv) ->
       filter_view df start end_ passengers distance tod h1 = (Ok l', hv') ->
       exists V, hv !! l = Some V /\ hv' !! l' = Some V.
Proof.
  intros h1.
  assert (Hsame : h1 !! df = h !! df) by apply update_dashboard_df.
  split; [apply update_dashboard_outcome, Hsame|].
  intros l l' hv hv' E E'.
  destruct (h !! df) as [F|] eqn:Hdf.
  - destruct distance as [|lo [|hi rest]].
    + destruct (filter_view_short h df F start end_ passengers [] tod Hdf)
        as (h' & Es & _); [simpl; lia|]. congruence.
    + destruct (filter_view_short h df F start end_ passengers [lo] tod Hdf)
        as (h' & Es & _); [simpl; lia|]. congruence.
    + destruct (filter_view_run h df F start end_ passengers lo hi rest tod Hdf)
        as (l0 & h0 & E0 & Hl0 & _).
      destruct (filter_view_run h1 df F start end_ passengers lo hi rest tod Hsame)
        as (l1 & h1' & E1 & Hl1 & _).
      rewrite E0 in E. injection E as <- <-.
      rewrite E1 in E'. injection E' as <- <-.
      eauto.
  - rewrite filter_view_unbound in E by exact Hdf. discriminate E.
Qed.

(** More generally, whatever was served in between, the outcome of a pass is
    the outcome it would have had at the start. *)
Lemma outcome_independent_of_history df rqs rq h :
  fst (handle df rq (serve df rqs h)) = fst (handle df rq h).
Proof. apply update_dashboard_outcome, serve_df. Qed.

(** C9. When the pass filters nothing out (every record of the dataset
    satisfies the four predicates, so in particular every period that occurs
    is selected), the trips of the hourly projection, bucketed into morning,
    afternoon, evening and night, add up to the number of records of the
    dataset. *)
Theorem bucket_counts_add_up_to_the_dataset
    h df F start end_ passengers lo hi tod :
  h !! df = Some F ->
  (forall r, In r (rows F) -> satisfies start end_ passengers lo hi tod r) ->
  exists figs,
    fst (update_dashboard df start end_ passengers [lo; hi] tod h) = Ok figs
    /\ (bucket_count "morning" (time_fig figs)
        + bucket_count "afternoon" (time_fig figs)
        + bucket_count "evening" (time_fig figs)
        + bucket_count "night" (time_fig figs))%nat
       = length (rows F).
Proof.
  intros Hdf Hall.
  destruct (update_dashboard_run h df F start end_ passengers lo hi [] tod Hdf)
    as (h' & E & _).
  eexists. split; [rewrite E; reflexivity|].
  cbn [figures_of time_fig]. rewrite bucket_counts_total, length_map.
  unfold view_frame; cbn [rows]. rewrite filter_all; [reflexivity|].
  intros r Hin. apply keeps_satisfies, Hall, Hin.
Qed.

(** For any filter setting, the four bucket counts add up to the size of
    the view. *)
Lemma bucket_counts_add_up_to_the_view start end_ passengers lo hi tod F :
  let V := view_frame start end_ passengers lo hi tod F in
  (bucket_count "morning" (time_fig (figures_of V))
   + bucket_count "afternoon" (time_fig (figures_of V))
   + bucket_count "evening" (time_fig (figures_of V))
   + bucket_count "night" (time_fig (figures_of V)))%nat
  = length (rows V).
Proof.
  intros V. cbn [figures_of time_fig].
  rewrite bucket_counts_total, length_map. reflexivity.
Qed.

Lemma bucket_counts_add_up_to_the_dataset_witness :
  demo_heap !! demo_df = Some (mkFrame [R1; R2; R3] None)
  /\ (forall r, In r [R1; R2; R3] -> satisfies 0 1000 1 0 20 all_periods r)
  /\ exists figs,
       fst (update_dashboard demo_df 0 1000 1 [0; 20]%Q all_periods demo_heap)
       = Ok figs
       /\ (bucket_count "morning" (time_fig figs)
           + bucket_count "afternoon" (time_fig figs)
           + bucket_count "evening" (time_fig figs)
           + bucket_count "night" (time_fig figs))%nat
          = 3%nat.
Proof.
  assert (Hall :
    forall r, In r [R1; R2; R3] -> satisfies 0 1000 1 0 20 all_periods r).
  { intros r Hin. apply keeps_satisfies.
    destruct Hin as [<-|[<-|[<-|[]]]]; reflexivity. }
  split; [reflexivity|]. split; [exact Hall|].
  apply (bucket_counts_add_up_to_the_dataset
           demo_heap demo_df (mkFrame [R1; R2; R3] None));
    [reflexivity | exact Hall].
Defined.

Lemma keeps_antitone start end_ p1 p2 lo hi tod r :
  p1 <= p2 ->
  keeps start end_ p2 lo hi tod r = true ->
  keeps start end_ p1 lo hi tod r = true.
Proof.
  intros Hle Hk. apply keeps_satisfies in Hk as (Ht & Hp & Hd & Hin).
  apply keeps_satisfies. unfold satisfies. repeat split; try tauto. lia.
Qed.

Lemma filter_sublist_mono {A} (f g : A -> bool) (xs : list A) :
  (forall x, f x = true -> g x = true) ->
  List.filter f xs `sublist_of` List.filter g xs.
Proof.
  intros Hfg. induction xs as [|x xs IH]; simpl; [constructor|].
  destruct (f x) eqn:Ef.
  - rewrite (Hfg x Ef). apply sublist_skip, IH.
  - destruct (g x); [apply sublist_cons|]; exact IH.
Qed.

(** C10. Raising the passenger threshold can only remove records: for two
    passes over the same dataset that differ in [passengers] alone, with
    [p1 <= p2], every record of the view for [p2] is in the view for [p1]
    (and in the same order). *)
Theorem filter_antitone_in_min_passengers
    h h' df F start end_ p1 p2 lo hi tod :
  h !! df = Some F ->
  h' !! df = Some F ->
  p1 <= p2 ->
  exists l1 h1 V1 l2 h2 V2,
    filter_view df start end_ p1 [lo; hi] tod h = (Ok l1, h1)
    /\ h1 !! l1 = Some V1
    /\ filter_view df start end_ p2 [lo; hi] tod h' = (Ok l2, h2)
    /\ h2 !! l2 = Some V2
    /\ (forall r, In r (rows V2) -> In r (rows V1))
    /\ rows V2 `sublist_of` rows V1.
Proof.
  intros Hdf Hdf' Hle.
  destruct (filter_view_run h df F start end_ p1 lo hi [] tod Hdf)
    as (l1 & h1 & E1 & Hl1 & _).
  destruct (filter_view_run h' df F start end_ p2 lo hi [] tod Hdf')
    as (l2 & h2 & E2 & Hl2 & _).
  exists l1, h1, (view_frame start end_ p1 lo hi tod F),
         l2, h2, (view_frame start end_ p2 lo hi tod F).
  assert (Hsub : rows (view_frame start end_ p2 lo hi tod F)
                 `sublist_of` rows (view_frame start end_ p1 lo hi tod F)).
  { apply filter_sublist_mono. intros r. apply keeps_antitone, Hle. }
  repeat (split; [assumption|]). split; [|exact Hsub].
  intros r. unfold view_frame; cbn [rows]. rewrite !filter_In.
  intros [Hin Hk]. split; [exact Hin|]. eapply keeps_antitone; eassumption.
Qed.

Lemma filter_antitone_in_min_passengers_witness :
  demo_heap !! demo_df = Some (mkFrame [R1; R2; R3] None)
  /\ 1 <= 2
  /\ exists l1 h1 V1 l2 h2 V2,
       filter_view demo_df 0 1000 1 [0; 20]%Q all_periods demo_heap = (Ok l1, h1)
       /\ h1 !! l1 = Some V1
       /\ filter_view demo_df 0 1000 2 [0; 20]%Q all_periods demo_heap = (Ok l2, h2)
       /\ h2 !! l2 = Some V2
       /\ (forall r, In r (rows V2) -> In r (rows V1))
       /\ rows V2 `sublist_of` rows V1.
Proof.
  split; [reflexivity|]. split; [lia|].
  apply (filter_antitone_in_min_passengers
           demo_heap demo_heap demo_df (mkFrame [R1; R2; R3] None));
    [reflexivity | reflexivity | lia].
Defined.

(** ** The clustering always returns *)

Lemma unlabeled_true labels i :
  unlabeled labels i = true <-> labels !! i = Some noise.
Proof. unfold unlabeled. apply bool_decide_eq_true. Qed.

Lemma count_noise_insert labels i k :
  labels !! i = Some noise -> k <> noise ->
  S (count_noise (<[i := k]> labels)) = count_noise labels.
Proof.
  unfold count_noise. revert i.
  induction labels as [|c labels IH]; intros i Hi Hk; [discriminate|].
  destruct i as [|i]; cbn [lookup list_lookup] in Hi;
    cbn [insert list_insert List.filter].
  - injection Hi as ->. rewrite Z.eqb_refl.
    destruct (Z.eqb_spec noise k) as [E|_]; [congruence|]. reflexivity.
  - destruct (noise =? c); cbn [length]; rewrite <- (IH i Hi Hk); reflexivity.
Qed.

Lemma count_noise_le labels : (count_noise labels <= length labels)%nat.
Proof. unfold count_noise. apply filter_length_le. Qed.

Section Termination.
Variables (core : list bool) (nbrs : list (list nat)) (n : nat).
Hypothesis nbrs_small : forall i ns, nbrs !! i = Some ns -> (length ns <= n)%nat.

Lemma pushed_small labels i :
  (length (rev (List.filter (unlabeled labels) (default [] (nbrs !! i)))) <= n)%nat.
Proof.
  rewrite length_rev.
  etrans; [apply filter_length_le|].
  destruct (nbrs !! i) as [ns|] eqn:E; simpl; [eauto | lia].
Qed.

Lemma expand_total fuel k i stack labels :
  k <> noise ->
  (length stack + count_noise labels * n < fuel)%nat ->
  exists labels',
    expand fuel core nbrs k i stack labels = Some labels'
    /\ length labels' = length labels.
Proof.
  intros Hk. revert i stack labels.
  induction fuel as [|fuel IH]; intros i stack labels Hm; [lia|].
  cbn [expand].
  destruct (unlabeled labels i) eqn:Eu.
  - apply unlabeled_true in Eu.
    pose proof (count_noise_insert labels i k Eu Hk) as Hc.
    destruct (default false (core !! i)).
    + pose proof (pushed_small (<[i := k]> labels) i) as Hp.
      destruct (rev _ ++ stack)%list as [|top rest] eqn:Es.
      * eexists; split; [reflexivity | apply length_insert].
      * apply (f_equal (@length nat)) in Es.
        rewrite length_app in Es. simpl in Es.
        destruct (IH top rest (<[i := k]> labels)) as (labels' & E & Hl); [nia|].
        exists labels'. split; [exact E|]. rewrite Hl. apply length_insert.
    + destruct stack as [|top rest].
      * eexists; split; [reflexivity | apply length_insert].
      * simpl in Hm.
        destruct (IH top rest (<[i := k]> labels)) as (labels' & E & Hl); [nia|].
        exists labels'. split; [exact E|]. rewrite Hl. apply length_insert.
  - destruct stack as [|top rest].
    + eexists; split; reflexivity.
    + simpl in Hm. apply IH. lia.
Qed.

Lemma scan_total todo k labels :
  0 <= k ->
  length labels = n ->
  exists labels',
    scan (S (n * n)) core nbrs todo k labels = Some labels'
    /\ length labels' = n.
Proof.
  revert k labels. induction todo as [|i todo IH]; intros k labels Hk Hn.
  - eexists; split; [reflexivity | exact Hn].
  - cbn [scan].
    destruct (negb (unlabeled labels i) || negb (default false (core !! i))).
    + apply IH; assumption.
    + destruct (expand_total (S (n * n)) k i [] labels) as (labels1 & E & Hl).
      * unfold noise; lia.
      * pose proof (count_noise_le labels). simpl. nia.
      * rewrite E. apply IH; [lia | congruence].
Qed.
End Termination.

(** On every input the clustering returns one label per point. *)
Lemma DBSCAN_total e ms pts :
  exists labels, DBSCAN e ms pts = Some labels /\ length labels = length pts.
Proof.
  unfold DBSCAN. apply scan_total.
  - intros i ns Hi. unfold neighborhoods in Hi.
    rewrite list_lookup_fmap in Hi.
    destruct (pts !! i) as [p|]; simpl in Hi; [|discriminate].
    injection Hi as <-. apply indices_where_length.
  - lia.
  - apply repeat_length.
Qed.

(** ** Clustering: what one cluster's growth reaches *)

Lemma expand_step fuel core nbrs k i stack labels :
  expand (S fuel) core nbrs k i stack labels
  = match visit core nbrs k i stack labels with
    | (labels1, []) => Some labels1
    | (labels1, top :: rest) => expand fuel core nbrs k top rest labels1
    end.
Proof.
  cbn [expand]. unfold visit.
  destruct (unlabeled labels i); [destruct (default false (core !! i))|];
    reflexivity.
Qed.

Lemma unlabeled_false labels i :
  unlabeled labels i = false <-> labels !! i <> Some noise.
Proof. unfold unlabeled. apply bool_decide_eq_false. Qed.

Lemma grows_refl k labels : grows k labels labels.
Proof. intros j. left. reflexivity. Qed.

Lemma grows_trans k l1 l2 l3 : grows k l1 l2 -> grows k l2 l3 -> grows k l1 l3.
Proof.
  intros H12 H23 j. destruct (H12 j) as [E12|[E1 E2]], (H23 j) as [E23|[E2' E3]].
  - left. congruence.
  - right. split; congruence.
  - right. split; congruence.
  - right. split; congruence.
Qed.

Lemma grows_insert k labels i :
  labels !! i = Some noise -> grows k labels (<[i := k]> labels).
Proof.
  intros Hi j. destruct (decide (i = j)) as [<-|Hne].
  - right. split; [exact Hi|]. apply list_lookup_insert_eq.
    apply lookup_lt_Some in Hi. exact Hi.
  - left. apply list_lookup_insert_ne, Hne.
Qed.

Lemma grows_labelled k labels labels' j :
  k <> noise -> grows k labels labels' ->
  unlabeled labels j = false -> unlabeled labels' j = false.
Proof.
  intros Hk Hg Hj. apply unlabeled_false. apply unlabeled_false in Hj.
  destruct (Hg j) as [E|[E _]]; congruence.
Qed.

Section Visit.
Variables (core : list bool) (nbrs : list (list nat)) (k : Z).
Hypothesis k_is_a_cluster : k <> noise.

Lemma visit_spec i stack labels labels1 stack1 :
  visit core nbrs k i stack labels = (labels1, stack1) ->
  grows k labels labels1
  /\ unlabeled labels1 i = false
  /\ (forall v, In v stack -> In v stack1)
  /\ (forall c, unlabeled labels c = true -> unlabeled labels1 c = false ->
        core !! c = Some true ->
        forall v, In v (default [] (nbrs !! c)) ->
          unlabeled labels1 v = false \/ In v stack1).
Proof.
  unfold visit. destruct (unlabeled labels i) eqn:Eu.
  - apply unlabeled_true in Eu.
    assert (Hi : unlabeled (<[i := k]> labels) i = false).
    { apply unlabeled_false. rewrite list_lookup_insert_eq
        by (apply lookup_lt_Some in Eu; exact Eu). congruence. }
    assert (Hother : forall c, unlabeled labels c = true ->
              unlabeled (<[i := k]> labels) c = false -> c = i).
    { intros c Hc Hc'. destruct (decide (i = c)) as [->|Hne]; [reflexivity|].
      apply unlabeled_true in Hc. apply unlabeled_false in Hc'.
      rewrite list_lookup_insert_ne in Hc' by exact Hne. congruence. }
    destruct (default false (core !! i)) eqn:Ec; intros [= <- <-].
    + split; [apply grows_insert, Eu|]. split; [exact Hi|].
      split; [intros v Hv; apply in_or_app; right; exact Hv|].
      intros c Hc Hc' _ v Hv. apply Hother in Hc'; [|exact Hc]. subst c.
      destruct (unlabeled (<[i := k]> labels) v) eqn:Ev; [right | left; reflexivity].
      apply in_or_app. left. apply in_rev. rewrite rev_involutive.
      apply filter_In. split; assumption.
    + split; [apply grows_insert, Eu|]. split; [exact Hi|].
      split; [intros v Hv; exact Hv|].
      intros c Hc Hc' Hcore. apply Hother in Hc'; [|exact Hc]. subst c.
      rewrite Hcore in Ec. discriminate Ec.
  - intros [= <- <-]. split; [apply grows_refl|]. split; [exact Eu|].
    split; [intros v Hv; exact Hv|].
    intros c Hc Hc'. congruence.
Qed.

(** When the growth of cluster [k] from point [i] ends, labels have only
    gone from noise to [k]; [i] and everything that was on the stack are
    labelled; and every neighbour of a core point labelled on the way is
    labelled too. *)
Lemma expand_closure fuel i stack labels labels' :
  expand fuel core nbrs k i stack labels = Some labels' ->
  grows k labels labels'
  /\ unlabeled labels' i = false
  /\ (forall v, In v stack -> unlabeled labels' v = false)
  /\ (forall c, unlabeled labels c = true -> unlabeled labels' c = false ->
        core !! c = Some true ->
        forall v, In v (default [] (nbrs !! c)) -> unlabeled labels' v = false).
Proof.
  revert i stack labels.
  induction fuel as [|fuel IH]; intros i stack labels E; [discriminate E|].
  rewrite expand_step in E.
  destruct (visit core nbrs k i stack labels) as [labels1 stack1] eqn:Ev.
  apply visit_spec in Ev as (Hg & Hi & Hst & Hcl).
  destruct stack1 as [|top rest].
  - injection E as <-. split; [exact Hg|]. split; [exact Hi|].
    split; [intros v Hv; destruct (Hst v Hv)|].
    intros c Hc Hc' Hcore v Hv.
    destruct (Hcl c Hc Hc' Hcore v Hv) as [Hl|[]]. exact Hl.
  - apply IH in E as (Hg' & Htop & Hrest & Hcl').
    assert (Hstack1 : forall v, In v (top :: rest) -> unlabeled labels' v = false).
    { intros v [<-|Hv]; [exact Htop | apply Hrest, Hv]. }
    split; [eapply grows_trans; eassumption|].
    split; [eapply grows_labelled; eassumption|].
    split; [intros v Hv; apply Hstack1, Hst, Hv|].
    intros c Hc Hc' Hcore v Hv.
    destruct (unlabeled labels1 c) eqn:Ec1.
    + eapply Hcl'; eassumption.
    + destruct (Hcl c Hc Ec1 Hcore v Hv) as [Hl|Hin].
      * eapply grows_labelled; eassumption.
      * apply Hstack1, Hin.
Qed.

Lemma scan_all_labelled fuel todo k0 labels :
  (forall i, In i todo -> unlabeled labels i = false) ->
  scan fuel core nbrs todo k0 labels = Some labels.
Proof.
  induction todo as [|i todo IH]; intros Hall; simpl; [reflexivity|].
  rewrite (Hall i) by (left; reflexivity). simpl.
  apply IH. intros j Hj. apply Hall. right; exact Hj.
Qed.
End Visit.

(** ** Clustering: identical points *)

Lemma lookup_repeat {A} (x : A) n j : (j < n)%nat -> repeat x n !! j = Some x.
Proof.
  revert j; induction n as [|n IH]; intros j Hj; [lia|].
  destruct j as [|j]; simpl; [reflexivity | apply IH; lia].
Qed.

Lemma indices_where_all {A} (f : A -> bool) i xs :
  (forall x, In x xs -> f x = true) ->
  indices_where f i xs = seq i (length xs).
Proof.
  revert i; induction xs as [|x xs IH]; intros i Hf; simpl; [reflexivity|].
  rewrite (Hf x) by (left; reflexivity).
  f_equal. apply IH. intros y Hy. apply Hf. right; exact Hy.
Qed.

Lemma within_self e vx vy p : (0 <= e * e)%Q -> within e vx vy p p = true.
Proof.
  intros He. unfold within. apply Qle_bool_iff.
  assert (E : (scaled_sqdist vx vy p p == 0)%Q)
    by (unfold scaled_sqdist, Qdiv; ring).
  rewrite E. exact He.
Qed.

(** A whole input seen from one core point becomes one cluster. *)
Lemma one_dense_cluster e ms pts :
  pts <> [] ->
  (forall c, (c < length pts)%nat ->
     neighborhoods e pts !! c = Some (seq 0 (length pts))) ->
  (ms <= length pts)%nat ->
  DBSCAN e ms pts = Some (repeat 0 (length pts)).
Proof.
  intros Hne Hnb Hms. unfold DBSCAN.
  set (n := length pts) in *. set (nbrs := neighborhoods e pts) in *.
  set (core := map (fun ns => (ms <=? length ns)%nat) nbrs).
  assert (Hn : (0 < n)%nat) by (subst n; destruct pts; [congruence | simpl; lia]).
  assert (Hcore : forall c, (c < n)%nat -> core !! c = Some true).
  { intros c Hc. subst core. rewrite list_lookup_fmap, (Hnb c Hc). simpl.
    rewrite length_seq. f_equal. apply Nat.leb_le, Hms. }
  assert (Hsmall : forall i ns, nbrs !! i = Some ns -> (length ns <= n)%nat).
  { intros i ns Hi. subst nbrs. unfold neighborhoods in Hi.
    rewrite list_lookup_fmap in Hi.
    destruct (pts !! i) as [p|]; simpl in Hi; [|discriminate].
    injection Hi as <-. apply indices_where_length. }
  destruct n as [|m] eqn:En; [lia|].
  cbn [seq scan].
  assert (H0 : unlabeled (repeat noise (S m)) 0 = true) by reflexivity.
  rewrite H0, (Hcore 0%nat) by lia. cbn [negb orb default].
  destruct (expand_total core nbrs (S m) Hsmall (S (S m * S m)) 0 0 []
              (repeat noise (S m))) as (labels1 & E & Hlen).
  { unfold noise; lia. }
  { pose proof (count_noise_le (repeat noise (S m))) as Hle.
    rewrite repeat_length in Hle. simpl length. nia. }
  rewrite E.
  destruct (expand_closure core nbrs 0 ltac:(unfold noise; lia) _ _ _ _ _ E)
    as (Hg & Hi & _ & Hcl).
  assert (Hall : labels1 = repeat 0 (S m)).
  { apply list_eq. intros j.
    destruct (le_lt_dec (S m) j) as [Hge|Hlt].
    - rewrite !lookup_ge_None_2; [reflexivity | rewrite repeat_length; lia |].
      rewrite Hlen, repeat_length. lia.
    - rewrite (lookup_repeat 0 (S m) j Hlt).
      assert (Hj : unlabeled labels1 j = false).
      { apply (Hcl 0%nat H0 Hi (Hcore 0%nat ltac:(lia)) j).
        rewrite (Hnb 0%nat) by lia. change (In j (seq 0 (S m))).
        apply in_seq. lia. }
      apply unlabeled_false in Hj.
      destruct (Hg j) as [Ej|[_ Ej]]; [|exact Ej].
      rewrite (lookup_repeat noise (S m) j Hlt) in Ej. congruence. }
  subst labels1. apply scan_all_labelled.
  intros i _. apply unlabeled_false.
  destruct (le_lt_dec (S m) i) as [Hge|Hlt].
  - rewrite lookup_ge_None_2 by (rewrite repeat_length; lia). discriminate.
  - rewrite (lookup_repeat 0 (S m) i Hlt). discriminate.
Qed.

Lemma identical_points_one_cluster pts :
  all_identical pts ->
  (min_samples <= length pts)%nat ->
  cluster_labels pts = Some (repeat 0 (length pts)).
Proof.
  intros Hid Hms. apply one_dense_cluster; [| |exact Hms].
  - intros ->. unfold min_samples in Hms. simpl in Hms. lia.
  - intros c Hc. unfold neighborhoods. rewrite list_lookup_fmap.
    destruct (lookup_lt_is_Some_2 pts c Hc) as [p Hp]. rewrite Hp. simpl.
    f_equal. apply indices_where_all. intros q Hq.
    assert (Hpin : In p pts) by (apply list_elem_of_In, list_elem_of_lookup; eauto).
    rewrite <- (Hid p q Hpin Hq). apply within_self. unfold eps. discriminate.
Qed.

(** C7, as the clustering behaves.  With fewer than [min_samples] points
    (identical or not), or with every two points farther than [eps] apart in
    standardized space, no point is a core point: the clustering returns,
    and every label is the noise label -1.  But [min_samples] or more
    identical points are all within [eps] of each other: each is a core
    point, the clustering returns, and every label is 0. *)
Theorem clustering_of_degenerate_input (coords : list Point) :
  ((length coords < min_samples)%nat \/ pairwise_far coords ->
   cluster_labels coords = Some (repeat noise (length coords)))
  /\ (all_identical coords -> (min_samples <= length coords)%nat ->
      cluster_labels coords = Some (repeat 0 (length coords))).
Proof.
  split.
  - intros [Hfew|Hfar].
    + apply few_points_all_noise, Hfew.
    + apply far_points_all_noise, Hfar.
  - intros Hid Hms. apply identical_points_one_cluster; assumption.
Qed.

Lemma clustering_of_degenerate_input_witness :
  (pairwise_far [(0, 0); (1, 1)]%Q
   /\ cluster_labels [(0, 0); (1, 1)]%Q = Some [noise; noise])
  /\ ((length [(3, 4); (3, 4); (3, 4)]%Q < min_samples)%nat
      /\ cluster_labels [(3, 4); (3, 4); (3, 4)]%Q = Some [noise; noise; noise])
  /\ (all_identical (repeat (7 # 2, -5)%Q 41)
      /\ (min_samples <= length (repeat (7 # 2, -5)%Q 41))%nat
      /\ cluster_labels (repeat (7 # 2, -5)%Q 41) = Some (repeat 0 41)).
Proof.
  assert (Hfar : pairwise_far [(0, 0); (1, 1)]%Q).
  { intros i j p q Hne Hi Hj.
    destruct i as [|[|i]], j as [|[|j]]; simpl in Hi, Hj;
      try discriminate; try congruence;
      injection Hi as <-; injection Hj as <-; reflexivity. }
  assert (Hid : all_identical (repeat (7 # 2, -5)%Q 41)).
  { intros p q Hp Hq.
    apply repeat_spec in Hp. apply repeat_spec in Hq. congruence. }
  assert (Hfew : (length [(3, 4); (3, 4); (3, 4)]%Q < min_samples)%nat)
    by (unfold min_samples; simpl; lia).
  assert (Hms : (min_samples <= length (repeat (7 # 2, -5)%Q 41))%nat)
    by (unfold min_samples; rewrite repeat_length; lia).
  split; [split; [exact Hfar|]|split; [split; [exact Hfew|]|]].
  - apply (proj1 (clustering_of_degenerate_input [(0, 0); (1, 1)]%Q)).
    right; exact Hfar.
  - apply (proj1 (clustering_of_degenerate_input [(3, 4); (3, 4); (3, 4)]%Q)).
    left; exact Hfew.
  - split; [exact Hid|]. split; [exact Hms|].
    apply (proj2 (clustering_of_degenerate_input (repeat (7 # 2, -5)%Q 41)));
      assumption.
Defined.

(** Two points far apart are an instance of the second case as well. *)
Example two_far_points : pairwise_far [(0, 0); (1, 1)]%Q.
Proof.
  intros i j p q Hne Hi Hj.
  destruct i as [|[|i]], j as [|[|j]]; simpl in Hi, Hj;
    try discriminate; try congruence;
    injection Hi as <-; injection Hj as <-; reflexivity.
Qed.

(** C7, as claimed, fails for identical points: forty copies of one point
    are all within [eps] of each other, so each is a core point and they form
    cluster 0; none is noise. *)
Lemma identical_points_form_a_cluster :
  all_identical (repeat (40, -74)%Q 40)
  /\ cluster_labels (repeat (40, -74)%Q 40) = Some (repeat 0 40)
  /\ cluster_labels (repeat (40, -74)%Q 40)
     <> Some (repeat noise (length (repeat (40, -74)%Q 40))).
Proof.
  split; [|split].
  - intros p q Hp Hq.
    apply repeat_spec in Hp. apply repeat_spec in Hq. congruence.
  - vm_compute. reflexivity.
  - vm_compute. discriminate.
Qed.

(** * Further properties of the callback *)

(** ** Inverting a pass *)

Lemma filter_view_inv h df start end_ passengers distance tod l h' :
  filter_view df start end_ passengers distance tod h = (Ok l, h') ->
  exists F lo hi rest,
    h !! df = Some F
    /\ distance = lo :: hi :: rest
    /\ h' !! l = Some (view_frame start end_ passengers lo hi tod F).
Proof.
  intros E.
  destruct (h !! df) as [F|] eqn:Hdf.
  - destruct distance as [|lo [|hi rest]].
    + destruct (filter_view_short h df F start end_ passengers [] tod Hdf)
        as (h0 & E0 & _); [simpl; lia|]. congruence.
    + destruct (filter_view_short h df F start end_ passengers [lo] tod Hdf)
        as (h0 & E0 & _); [simpl; lia|]. congruence.
    + destruct (filter_view_run h df F start end_ passengers lo hi rest tod Hdf)
        as (l0 & h0 & E0 & Hl0 & _).
      rewrite E0 in E. injection E as <- <-.
      exists F, lo, hi, rest. auto.
  - rewrite filter_view_unbound in E by exact Hdf. discriminate E.
Qed.

Lemma leaves_view_inv df rq h V :
  leaves_view df rq h V ->
  exists F lo hi rest,
    h !! df = Some F
    /\ req_distance rq = lo :: hi :: rest
    /\ V = view_frame (req_start rq) (req_end rq) (req_passengers rq)
             lo hi (req_tod rq) F.
Proof.
  intros (l & h' & E & Hl).
  apply filter_view_inv in E as (F & lo & hi & rest & Hdf & Hd & Hv).
  exists F, lo, hi, rest. repeat split; try assumption. congruence.
Qed.

Lemma handle_inv df rq h figs :
  fst (handle df rq h) = Ok figs ->
  exists F lo hi rest,
    h !! df = Some F
    /\ req_distance rq = lo :: hi :: rest
    /\ figs = figures_of (view_frame (req_start rq) (req_end rq)
                            (req_passengers rq) lo hi (req_tod rq) F).
Proof.
  unfold handle. intros E.
  destruct (h !! df) as [F|] eqn:Hdf.
  - destruct (req_distance rq) as [|lo [|hi rest]] eqn:Hd.
    + destruct (update_dashboard_short h df F (req_start rq) (req_end rq)
                  (req_passengers rq) [] (req_tod rq) Hdf)
        as (h0 & E0 & _); [simpl; lia|]. rewrite E0 in E. discriminate E.
    + destruct (update_dashboard_short h df F (req_start rq) (req_end rq)
                  (req_passengers rq) [lo] (req_tod rq) Hdf)
        as (h0 & E0 & _); [simpl; lia|]. rewrite E0 in E. discriminate E.
    + destruct (update_dashboard_run h df F (req_start rq) (req_end rq)
                  (req_passengers rq) lo hi rest (req_tod rq) Hdf)
        as (h0 & E0 & _).
      rewrite E0 in E. injection E as <-.
      exists F, lo, hi, rest. auto.
  - rewrite update_dashboard_unbound in E by exact Hdf. discriminate E.
Qed.

(** ** The count tables *)

Lemma count_of_pos k xs : (0 < count_of k xs)%nat <-> In k xs.
Proof.
  unfold count_of. induction xs as [|x xs IH]; simpl; [split; [lia|tauto]|].
  destruct (Z.eqb_spec k x) as [->|Hne]; simpl.
  - split; [tauto | lia].
  - rewrite IH. split; [tauto|]. intros [E|Hin]; [congruence | exact Hin].
Qed.

Lemma trips_of_absent k tbl :
  ~ In k (map fst tbl) -> trips_of k tbl = 0%nat.
Proof.
  induction tbl as [|[k0 n0] tbl IH]; simpl; intros Hk; [reflexivity|].
  destruct (Z.eqb_spec k0 k) as [->|_]; [tauto|]. apply IH. tauto.
Qed.

Lemma trips_of_present k n tbl :
  NoDup (map fst tbl) -> In (k, n) tbl -> trips_of k tbl = n.
Proof.
  induction tbl as [|[k0 n0] tbl IH]; simpl; intros Hnd Hin; [destruct Hin|].
  apply NoDup_cons in Hnd as [Hk0 Hnd]. rewrite list_elem_of_In in Hk0.
  destruct Hin as [[= -> ->]|Hin].
  - rewrite Z.eqb_refl, trips_of_absent by exact Hk0. lia.
  - destruct (Z.eqb_spec k0 k) as [->|_]; [|apply IH; assumption].
    exfalso. apply Hk0. apply (in_map fst) in Hin. exact Hin.
Qed.

(** Facts shared by the two ways of tallying: [step k acc] records one more
    occurrence of [k] in a table kept in the shape [Inv]. *)
Section Tallying.
Variable step : Z -> list (Z * nat) -> list (Z * nat).
Variable Inv : list (Z * nat) -> Prop.
Hypothesis Inv_nil : Inv [].
Hypothesis Inv_step : forall k acc, Inv acc -> Inv (step k acc).
Hypothesis Inv_NoDup : forall acc, Inv acc -> NoDup (map fst acc).
Hypothesis step_trips : forall k' k acc,
  trips_of k' (step k acc)
  = ((if (k =? k')%Z then 1 else 0) + trips_of k' acc)%nat.
Hypothesis step_keys : forall k' k acc,
  In k' (map fst (step k acc)) <-> k' = k \/ In k' (map fst acc).
Hypothesis step_pos : forall k acc,
  Forall (fun e => (0 < snd e)%nat) acc ->
  Forall (fun e => (0 < snd e)%nat) (step k acc).
Hypothesis step_total : forall k acc,
  total_trips (step k acc) = S (total_trips acc).

Let run (ks : list Z) (acc : list (Z * nat)) : list (Z * nat) :=
  fold_left (fun acc k => step k acc) ks acc.

Lemma run_Inv ks acc : Inv acc -> Inv (run ks acc).
Proof. revert acc; induction ks; simpl; auto. Qed.

Lemma run_trips k' ks acc :
  trips_of k' (run ks acc) = (count_of k' ks + trips_of k' acc)%nat.
Proof.
  revert acc; induction ks as [|k ks IH]; intros acc; simpl; [reflexivity|].
  rewrite IH, step_trips. unfold count_of; simpl.
  rewrite (Z.eqb_sym k' k). destruct (k =? k'); simpl; lia.
Qed.

Lemma run_keys k' ks acc :
  In k' (map fst (run ks acc)) <-> In k' ks \/ In k' (map fst acc).
Proof.
  revert acc; induction ks as [|k ks IH]; intros acc; simpl; [tauto|].
  rewrite IH, step_keys. intuition congruence.
Qed.

Lemma run_pos ks acc :
  Forall (fun e => (0 < snd e)%nat) acc ->
  Forall (fun e => (0 < snd e)%nat) (run ks acc).
Proof. revert acc; induction ks; simpl; auto. Qed.

Lemma run_total ks acc :
  total_trips (run ks acc) = (length ks + total_trips acc)%nat.
Proof.
  revert acc; induction ks as [|k ks IH]; intros acc; simpl; [reflexivity|].
  rewrite IH, step_total. lia.
Qed.

Lemma run_value ks k n :
  In (k, n) (run ks []) -> n = count_of k ks.
Proof.
  intros Hin.
  assert (Hnd : NoDup (map fst (run ks []))) by (apply Inv_NoDup, run_Inv, Inv_nil).
  rewrite <- (trips_of_present k n _ Hnd Hin), run_trips. simpl. lia.
Qed.

Lemma run_rows ks k n :
  In (k, n) (run ks []) <-> (0 < n)%nat /\ n = count_of k ks.
Proof.
  split.
  - intros Hin. split; [|apply run_value, Hin].
    assert (Hp : Forall (fun e => (0 < snd e)%nat) (run ks []))
      by (apply run_pos; constructor).
    rewrite Forall_forall in Hp. apply (Hp (k, n)), list_elem_of_In, Hin.
  - intros [Hpos ->]. apply count_of_pos in Hpos.
    assert (Hk : In k (map fst (run ks []))) by (apply run_keys; left; exact Hpos).
    apply in_map_iff in Hk as ([k0 n0] & E & Hin). simpl in E. subst k0.
    rewrite <- (run_value ks k n0 Hin). exact Hin.
Qed.
End Tallying.

(** *** [groupby(...).size()] *)

Lemma tally_sorted_trips k' k acc :
  trips_of k' (tally_sorted k acc)
  = ((if (k =? k')%Z then 1 else 0) + trips_of k' acc)%nat.
Proof.
  induction acc as [|[k0 n0] acc IH]; simpl; [destruct (k =? k'); reflexivity|].
  destruct (k <? k0); [simpl; destruct (k =? k'); reflexivity|].
  destruct (Z.eqb_spec k k0) as [->|Hne]; simpl.
  - destruct (k0 =? k'); lia.
  - rewrite IH. destruct (k0 =? k'), (k =? k'); lia.
Qed.

Lemma tally_sorted_keys k' k acc :
  In k' (map fst (tally_sorted k acc)) <-> k' = k \/ In k' (map fst acc).
Proof.
  induction acc as [|[k0 n0] acc IH]; simpl; [intuition congruence|].
  destruct (k <? k0); [simpl; intuition congruence|].
  destruct (Z.eqb_spec k k0) as [->|Hne]; simpl; [intuition congruence|].
  rewrite IH. intuition congruence.
Qed.

Lemma tally_sorted_increasing k acc :
  StronglySorted Z.lt (map fst acc) ->
  StronglySorted Z.lt (map fst (tally_sorted k acc)).
Proof.
  induction acc as [|[k0 n0] acc IH]; simpl; intros Hs.
  - repeat constructor.
  - pose proof Hs as Hs0. apply StronglySorted_inv in Hs0 as [Hs' Hall].
    destruct (Z.ltb_spec k k0) as [Hlt|Hge]; simpl.
    + constructor; [exact Hs|]. constructor; [exact Hlt|].
      eapply Forall_impl; [exact Hall|]. intros a; simpl; lia.
    + destruct (Z.eqb_spec k k0) as [->|Hne]; simpl; [exact Hs|].
      constructor; [apply IH, Hs'|].
      apply Forall_forall. intros a Ha.
      apply list_elem_of_In, tally_sorted_keys in Ha as [->|Ha]; [lia|].
      rewrite Forall_forall in Hall. apply Hall, list_elem_of_In, Ha.
Qed.

Lemma increasing_NoDup (ks : list Z) :
  StronglySorted Z.lt ks -> NoDup ks.
Proof.
  induction ks as [|k ks IH]; intros Hs; [constructor|].
  apply StronglySorted_inv in Hs as [Hs Hall].
  apply NoDup_cons. split; [|apply IH, Hs].
  intros Hin. rewrite Forall_forall in Hall. specialize (Hall k Hin). lia.
Qed.

Lemma tally_sorted_pos k acc :
  Forall (fun e => (0 < snd e)%nat) acc ->
  Forall (fun e => (0 < snd e)%nat) (tally_sorted k acc).
Proof.
  induction acc as [|[k0 n0] acc IH]; simpl; intros Hp.
  - repeat constructor.
  - apply Forall_cons in Hp as [Hp0 Hp].
    destruct (k <? k0); [repeat constructor; assumption|].
    destruct (k =? k0); constructor; simpl in *; auto; lia.
Qed.

Lemma tally_sorted_total k acc :
  total_trips (tally_sorted k acc) = S (total_trips acc).
Proof.
  induction acc as [|[k0 n0] acc IH]; simpl; [reflexivity|].
  destruct (k <? k0); [reflexivity|].
  destruct (k =? k0); simpl; [reflexivity|]. rewrite IH. lia.
Qed.

(** *** [value_counts()] *)

Lemma tally_trips k' k acc :
  trips_of k' (tally k acc)
  = ((if (k =? k')%Z then 1 else 0) + trips_of k' acc)%nat.
Proof.
  induction acc as [|[k0 n0] acc IH]; simpl; [destruct (k =? k'); reflexivity|].
  destruct (Z.eqb_spec k k0) as [->|Hne]; simpl.
  - destruct (k0 =? k'); lia.
  - rewrite IH. destruct (k0 =? k'), (k =? k'); lia.
Qed.

Lemma tally_keys k' k acc :
  In k' (map fst (tally k acc)) <-> k' = k \/ In k' (map fst acc).
Proof.
  induction acc as [|[k0 n0] acc IH]; simpl; [intuition congruence|].
  destruct (Z.eqb_spec k k0) as [->|Hne]; simpl; [intuition congruence|].
  rewrite IH. intuition congruence.
Qed.

Lemma tally_NoDup k acc :
  NoDup (map fst acc) -> NoDup (map fst (tally k acc)).
Proof.
  induction acc as [|[k0 n0] acc IH]; simpl; intros Hnd.
  - apply NoDup_singleton.
  - destruct (Z.eqb_spec k k0) as [->|Hne]; simpl; [exact Hnd|].
    apply NoDup_cons in Hnd as [Hk0 Hnd].
    apply NoDup_cons. split; [|apply IH, Hnd].
    rewrite list_elem_of_In, tally_keys. rewrite list_elem_of_In in Hk0.
    intros [E|Hin]; [congruence | tauto].
Qed.

Lemma tally_pos k acc :
  Forall (fun e => (0 < snd e)%nat) acc ->
  Forall (fun e => (0 < snd e)%nat) (tally k acc).
Proof.
  induction acc as [|[k0 n0] acc IH]; simpl; intros Hp.
  - repeat constructor.
  - apply Forall_cons in Hp as [Hp0 Hp].
    destruct (k =? k0); constructor; simpl in *; auto; lia.
Qed.

Lemma tally_total k acc : total_trips (tally k acc) = S (total_trips acc).
Proof.
  induction acc as [|[k0 n0] acc IH]; simpl; [reflexivity|].
  destruct (k =? k0); simpl; [reflexivity|]. rewrite IH. lia.
Qed.

Lemma insert_desc_perm e l : insert_desc e l ≡ₚ e :: l.
Proof.
  induction l as [|e' l IH]; simpl; [reflexivity|].
  destruct (snd e <? snd e')%nat; [|reflexivity].
  rewrite IH. apply Permutation_swap.
Qed.

Lemma sort_desc_perm l : fold_right insert_desc [] l ≡ₚ l.
Proof.
  induction l as [|e l IH]; simpl; [reflexivity|].
  rewrite insert_desc_perm, IH. reflexivity.
Qed.

Lemma insert_desc_sorted e l :
  StronglySorted by_count_desc l -> StronglySorted by_count_desc (insert_desc e l).
Proof.
  induction l as [|e' l IH]; simpl; intros Hs; [repeat constructor|].
  pose proof Hs as Hs0. apply StronglySorted_inv in Hs0 as [Hs' Hall].
  destruct (Nat.ltb_spec (snd e) (snd e')) as [Hlt|Hge].
  - constructor; [apply IH, Hs'|].
    rewrite insert_desc_perm. constructor; [unfold by_count_desc; lia | exact Hall].
  - constructor; [exact Hs|]. constructor; [exact Hge|].
    eapply Forall_impl; [exact Hall|]. unfold by_count_desc. intros a; lia.
Qed.

Lemma sort_desc_sorted l : StronglySorted by_count_desc (fold_right insert_desc [] l).
Proof.
  induction l as [|e l IH]; simpl; [constructor | apply insert_desc_sorted, IH].
Qed.

Lemma insert_desc_total e l :
  total_trips (insert_desc e l) = (snd e + total_trips l)%nat.
Proof.
  induction l as [|e' l IH]; simpl; [reflexivity|].
  destruct (snd e <? snd e')%nat; simpl; [rewrite IH; lia | reflexivity].
Qed.

Lemma sort_desc_total l : total_trips (fold_right insert_desc [] l) = total_trips l.
Proof.
  induction l as [|e l IH]; simpl; [reflexivity|].
  rewrite insert_desc_total, IH. reflexivity.
Qed.

Lemma groupby_size_increasing keys :
  StronglySorted Z.lt (map fst (groupby_size keys)).
Proof.
  unfold groupby_size.
  apply (run_Inv tally_sorted (fun acc => StronglySorted Z.lt (map fst acc)));
    [intros; apply tally_sorted_increasing; assumption | constructor].
Qed.

Lemma groupby_size_rows keys k n :
  In (k, n) (groupby_size keys) <-> (0 < n)%nat /\ n = count_of k keys.
Proof.
  unfold groupby_size.
  apply (run_rows tally_sorted (fun acc => StronglySorted Z.lt (map fst acc)));
    try (intros; first [ apply tally_sorted_increasing
                       | apply increasing_NoDup
                       | apply tally_sorted_pos ]; assumption).
  - constructor.
  - apply tally_sorted_trips.
  - apply tally_sorted_keys.
Qed.

Lemma groupby_size_total keys : total_trips (groupby_size keys) = length keys.
Proof.
  unfold groupby_size. rewrite (run_total tally_sorted tally_sorted_total).
  simpl. lia.
Qed.

Lemma tally_all_NoDup vals :
  NoDup (map fst (fold_left (fun acc k => tally k acc) vals [])).
Proof.
  apply (run_Inv tally (fun acc => NoDup (map fst acc)));
    [intros; apply tally_NoDup; assumption | constructor].
Qed.

Lemma value_counts_rows vals k n :
  In (k, n) (value_counts vals) <-> (0 < n)%nat /\ n = count_of k vals.
Proof.
  unfold value_counts.
  rewrite <- !list_elem_of_In, sort_desc_perm, list_elem_of_In.
  apply (run_rows tally (fun acc => NoDup (map fst acc)));
    try (intros; first [ apply tally_NoDup | apply tally_pos ]; assumption);
    try (intros; assumption).
  - constructor.
  - apply tally_trips.
  - apply tally_keys.
Qed.

Lemma value_counts_total vals : total_trips (value_counts vals) = length vals.
Proof.
  unfold value_counts. rewrite sort_desc_total.
  rewrite (run_total tally tally_total). simpl. lia.
Qed.

(** X1. [groupby('hour').size()]: the keys come out strictly increasing;
    a row (k, n) is listed exactly when k occurs in the column, n being the
    number of its occurrences (so never 0); the counts add up to the length
    of the column. *)
Theorem groupby_size_spec (keys : list Z) :
  StronglySorted Z.lt (map fst (groupby_size keys))
  /\ (forall k n, In (k, n) (groupby_size keys)
                  <-> (0 < n)%nat /\ n = count_of k keys)
  /\ total_trips (groupby_size keys) = length keys.
Proof.
  split; [apply groupby_size_increasing|].
  split; [intros k n; apply groupby_size_rows|].
  apply groupby_size_total.
Qed.

(** X2. [value_counts()]: each value of the column is listed once, with the
    number of its occurrences (never 0); rows come most frequent first; the
    counts add up to the length of the column. *)
Theorem value_counts_spec (vals : list Z) :
  NoDup (map fst (value_counts vals))
  /\ StronglySorted by_count_desc (value_counts vals)
  /\ (forall k n, In (k, n) (value_counts vals)
                  <-> (0 < n)%nat /\ n = count_of k vals)
  /\ total_trips (value_counts vals) = length vals.
Proof.
  split; [|split; [|split]].
  - unfold value_counts. rewrite sort_desc_perm. apply tally_all_NoDup.
  - unfold value_counts. apply sort_desc_sorted.
  - intros k n. apply value_counts_rows.
  - apply value_counts_total.
Qed.

(** ** Errors *)



(** X4. Only [distance[0]] and [distance[1]] are read: further entries of
    [distance] change nothing in the outcome. *)
Theorem distance_tail_is_ignored h df start end_ passengers lo hi rest tod :
  fst (update_dashboard df start end_ passengers (lo :: hi :: rest) tod h)
  = fst (update_dashboard df start end_ passengers [lo; hi] tod h).
Proof.
  destruct (h !! df) as [F|] eqn:Hdf.
  - destruct (update_dashboard_run h df F start end_ passengers lo hi rest tod Hdf)
      as (h1 & E1 & _).
    destruct (update_dashboard_run h df F start end_ passengers lo hi [] tod Hdf)
      as (h2 & E2 & _).
    rewrite E1, E2. reflexivity.
  - rewrite !update_dashboard_unbound by exact Hdf. reflexivity.
Qed.

(** ** The heap across interactions *)

(** X5. No interaction overwrites or removes an object that was on the heap
    before it: any frame, not only [df], is found unchanged at its
    reference after any sequence of requests, raising or not. *)
Theorem existing_frames_are_never_touched df rqs h l G :
  h !! l = Some G ->
  serve df rqs h !! l = Some G.
Proof.
  intros Hl. eapply lookup_weaken; [exact Hl | apply serve_extends].
Qed.

Lemma existing_frames_are_never_touched_witness :
  let h := <[7%nat := demo_view]> demo_heap in
  let rqs := [demo_rq; mkRequest 5 1 1 [3 # 1]%Q []] in
  h !! 7%nat = Some demo_view
  /\ serve demo_df rqs h !! 7%nat = Some demo_view.
Proof.
  intros h rqs. split; [reflexivity|].
  apply (existing_frames_are_never_touched demo_df rqs h 7%nat demo_view).
  reflexivity.
Defined.

(** X6. The outcome of a request does not depend on which requests were
    served before it. *)
Theorem outcome_does_not_depend_on_history df rqs rq h :
  fst (handle df rq (serve df rqs h)) = fst (handle df rq h).
Proof. apply update_dashboard_outcome, serve_df. Qed.

(** ** The view *)

(** X7. In the view a pass leaves behind, the ['period'] column has one
    entry per row, namely [period] of the row's hour, and each entry is one
    of the requested periods. *)
Theorem view_period_column_is_consistent df rq h V :
  leaves_view df rq h V ->
  col_period V = Some (map (fun r => period (hour r)) (rows V))
  /\ forall r, In r (rows V) -> In (period (hour r)) (req_tod rq).
Proof.
  intros Hv.
  apply leaves_view_inv in Hv as (F & lo & hi & rest & _ & _ & ->).
  split; [reflexivity|].
  intros r Hin. unfold view_frame in Hin; cbn [rows] in Hin.
  apply filter_In in Hin as [_ Hk].
  apply keeps_satisfies in Hk. unfold satisfies in Hk. tauto.
Qed.

Lemma demo_leaves_view : leaves_view demo_df demo_rq demo_heap demo_view.
Proof. eexists _, _. split; vm_compute; reflexivity. Defined.

Lemma view_period_column_is_consistent_witness :
  leaves_view demo_df demo_rq demo_heap demo_view
  /\ col_period demo_view = Some (map (fun r => period (hour r)) (rows demo_view))
  /\ forall r, In r (rows demo_view) -> In (period (hour r)) (req_tod demo_rq).
Proof.
  split; [exact demo_leaves_view|].
  apply (view_period_column_is_consistent demo_df demo_rq demo_heap demo_view).
  exact demo_leaves_view.
Defined.

(** X8. Loosening a request can only add records.  If the second request
    has a date range inside the first one's, a distance range inside the
    first one's, at least as high a passenger threshold and only periods the
    first one has too, then its view is a subsequence of the first one's. *)
Theorem tighter_request_gives_a_subview df rq1 rq2 h1 h2 F V1 V2 lo1 hi1 lo2 hi2 :
  h1 !! df = Some F ->
  h2 !! df = Some F ->
  req_distance rq1 = [lo1; hi1] ->
  req_distance rq2 = [lo2; hi2] ->
  req_start rq1 <= req_start rq2 ->
  req_end rq2 <= req_end rq1 ->
  req_passengers rq1 <= req_passengers rq2 ->
  (lo1 <= lo2)%Q ->
  (hi2 <= hi1)%Q ->
  (forall p, In p (req_tod rq2) -> In p (req_tod rq1)) ->
  leaves_view df rq1 h1 V1 ->
  leaves_view df rq2 h2 V2 ->
  rows V2 `sublist_of` rows V1.
Proof.
  intros Hdf1 Hdf2 Hd1 Hd2 Hs He Hp Hlo Hhi Htod Hv1 Hv2.
  apply leaves_view_inv in Hv1 as (F1 & a1 & b1 & r1 & HF1 & Hd1' & ->).
  apply leaves_view_inv in Hv2 as (F2 & a2 & b2 & r2 & HF2 & Hd2' & ->).
  assert (F1 = F) by congruence. assert (F2 = F) by congruence. subst F1 F2.
  rewrite Hd1 in Hd1'. injection Hd1' as <- <- <-.
  rewrite Hd2 in Hd2'. injection Hd2' as <- <- <-.
  unfold view_frame; cbn [rows]. apply filter_sublist_mono.
  intros r Hk. apply keeps_satisfies in Hk as (Ht & Hpc & [Hl Hh] & Hin).
  apply keeps_satisfies. unfold satisfies.
  split; [lia|]. split; [lia|]. split; [|apply Htod, Hin].
  split; eapply Qle_trans; eassumption.
Qed.

Lemma tighter_request_gives_a_subview_witness :
  let rq1 := mkRequest 0 1000 1 [0; 20]%Q all_periods in
  let V1 := mkFrame [R1; R2; R3] (Some ["morning"; "afternoon"; "evening"]) in
  demo_heap !! demo_df = Some (mkFrame [R1; R2; R3] None)
  /\ leaves_view demo_df rq1 demo_heap V1
  /\ leaves_view demo_df demo_rq demo_heap demo_view
  /\ rows demo_view `sublist_of` rows V1.
Proof.
  intros rq1 V1.
  assert (Hv1 : leaves_view demo_df rq1 demo_heap V1)
    by (eexists _, _; split; vm_compute; reflexivity).
  split; [reflexivity|]. split; [exact Hv1|]. split; [exact demo_leaves_view|].
  apply (tighter_request_gives_a_subview demo_df rq1 demo_rq demo_heap demo_heap
           (mkFrame [R1; R2; R3] None) V1 demo_view 0 20 0 20);
    try reflexivity; try (simpl; lia); try discriminate;
    try exact Hv1; try exact demo_leaves_view.
  intros p Hp. simpl in *. tauto.
Defined.

Lemma existsb_period_ext hr tod tod' :
  (forall p, In p all_periods -> (In p tod <-> In p tod')) ->
  existsb (String.eqb (period hr)) tod = existsb (String.eqb (period hr)) tod'.
Proof.
  intros Hagree.
  assert (Hp : In (period hr) all_periods).
  { unfold all_periods. destruct (period_cases hr) as [E|[E|[E|E]]];
      rewrite E; simpl; tauto. }
  assert (Hiff : forall t, existsb (String.eqb (period hr)) t = true
                           <-> In (period hr) t).
  { intros t. rewrite existsb_exists. split.
    - intros (p & Hin & E). apply String.eqb_eq in E. congruence.
    - intros Hin. exists (period hr). split; [exact Hin | apply String.eqb_refl]. }
  specialize (Hagree _ Hp).
  destruct (existsb (String.eqb (period hr)) tod) eqn:E1,
           (existsb (String.eqb (period hr)) tod') eqn:E2; try reflexivity.
  - apply Hiff, Hagree, Hiff in E1. congruence.
  - apply Hiff, Hagree, Hiff in E2. congruence.
Qed.

(** X9. The checklist is read as a set of period names: two values of [tod]
    that tick the same ones of the four periods give the same outcome,
    whatever their order, repetitions or other strings in them. *)
Theorem tod_is_read_as_a_set h df start end_ passengers distance tod tod' :
  (forall p, In p all_periods -> (In p tod <-> In p tod')) ->
  fst (update_dashboard df start end_ passengers distance tod h)
  = fst (update_dashboard df start end_ passengers distance tod' h).
Proof.
  intros Hagree.
  destruct (h !! df) as [F|] eqn:Hdf.
  - destruct (le_lt_dec 2 (length distance)) as [Hlong|Hshort].
    + destruct distance as [|lo [|hi rest]]; simpl in Hlong; try lia.
      destruct (update_dashboard_run h df F start end_ passengers lo hi rest tod Hdf)
        as (h1 & E1 & _).
      destruct (update_dashboard_run h df F start end_ passengers lo hi rest tod' Hdf)
        as (h2 & E2 & _).
      rewrite E1, E2. cbn [fst]. do 2 f_equal.
      unfold view_frame.
      assert (Hrows :
        List.filter (keeps start end_ passengers lo hi tod) (rows F)
        = List.filter (keeps start end_ passengers lo hi tod') (rows F)).
      { apply filter_ext. intros r. unfold keeps.
        rewrite (existsb_period_ext (hour r) tod tod' Hagree). reflexivity. }
      rewrite Hrows. reflexivity.
    + destruct (update_dashboard_short h df F start end_ passengers distance tod Hdf Hshort)
        as (h1 & E1 & _).
      destruct (update_dashboard_short h df F start end_ passengers distance tod' Hdf Hshort)
        as (h2 & E2 & _).
      rewrite E1, E2. reflexivity.
  - rewrite !update_dashboard_unbound by exact Hdf. reflexivity.
Qed.

Lemma tod_is_read_as_a_set_witness :
  let tod := ["morning"; "evening"] in
  let tod' := ["evening"; "dusk"; "morning"; "evening"] in
  (forall p, In p all_periods -> (In p tod <-> In p tod'))
  /\ fst (update_dashboard demo_df 0 1000 2 [0; 20]%Q tod demo_heap)
     = fst (update_dashboard demo_df 0 1000 2 [0; 20]%Q tod' demo_heap).
Proof.
  intros tod tod'.
  assert (Hagree : forall p, In p all_periods -> (In p tod <-> In p tod')).
  { intros p [<-|[<-|[<-|[<-|[]]]]]; simpl; intuition discriminate. }
  split; [exact Hagree|].
  apply (tod_is_read_as_a_set demo_heap demo_df 0 1000 2 [0; 20]%Q tod tod').
  exact Hagree.
Defined.

(** ** The figures of a pass *)

Lemma groupby_size_keys k n keys : In (k, n) (groupby_size keys) -> In k keys.
Proof.
  intros Hin. apply groupby_size_rows in Hin as [Hpos ->].
  apply count_of_pos, Hpos.
Qed.

Lemma value_counts_keys k n vals : In (k, n) (value_counts vals) -> In k vals.
Proof.
  intros Hin. apply value_counts_rows in Hin as [Hpos ->].
  apply count_of_pos, Hpos.
Qed.

(** X10. Every point of the scatter map is a record of the dataset, shown
    with the coordinates and the cluster label it has there, and the points
    come in dataset order. *)
Theorem map_points_come_from_the_dataset df rq h F figs :
  h !! df = Some F ->
  fst (handle df rq h) = Ok figs ->
  map_fig figs `sublist_of` map map_point (rows F).
Proof.
  intros Hdf E.
  apply handle_inv in E as (F' & lo & hi & rest & Hdf' & _ & ->).
  assert (F' = F) by congruence. subst F'.
  cbn [figures_of map_fig]. apply (fmap_sublist map_point).
  unfold view_frame; cbn [rows]. apply filter_sublist.
Qed.

Lemma map_points_come_from_the_dataset_witness :
  demo_heap !! demo_df = Some (mkFrame [R1; R2; R3] None)
  /\ fst (handle demo_df demo_rq demo_heap) = Ok (figures_of demo_view)
  /\ map_fig (figures_of demo_view) `sublist_of` map map_point [R1; R2; R3].
Proof.
  split; [reflexivity|]. split; [vm_compute; reflexivity|].
  apply (map_points_come_from_the_dataset demo_df demo_rq demo_heap
           (mkFrame [R1; R2; R3] None));
    [reflexivity | vm_compute; reflexivity].
Defined.

(** X11. What the three charts show respects the request: every distance in
    the histogram sample lies between [distance[0]] and [distance[1]], the
    histogram asks for 30 bins, every passenger count in the bar chart is at
    least [passengers], and every hour of the line chart falls in one of the
    requested periods. *)
Theorem charts_respect_the_request df rq h figs lo hi rest :
  req_distance rq = lo :: hi :: rest ->
  fst (handle df rq h) = Ok figs ->
  (forall d, In d (fst (dist_fig figs)) -> (lo <= d /\ d <= hi)%Q)
  /\ snd (dist_fig figs) = 30%nat
  /\ (forall k n, In (k, n) (pass_fig figs) -> req_passengers rq <= k)
  /\ (forall hr n, In (hr, n) (time_fig figs) -> In (period hr) (req_tod rq)).
Proof.
  intros Hd E.
  apply handle_inv in E as (F & lo' & hi' & rest' & _ & Hd' & ->).
  rewrite Hd in Hd'. injection Hd' as <- <- <-.
  assert (Hsat : forall r,
    In r (rows (view_frame (req_start rq) (req_end rq) (req_passengers rq)
                  lo hi (req_tod rq) F)) ->
    satisfies (req_start rq) (req_end rq) (req_passengers rq) lo hi (req_tod rq) r).
  { intros r Hin. unfold view_frame in Hin; cbn [rows] in Hin.
    apply filter_In in Hin as [_ Hk]. apply keeps_satisfies, Hk. }
  cbn [figures_of dist_fig pass_fig time_fig fst snd].
  split; [|split; [reflexivity|split]].
  - intros d Hin. apply in_map_iff in Hin as (r & <- & Hr).
    apply Hsat in Hr. unfold satisfies in Hr. tauto.
  - intros k n Hin. apply value_counts_keys, in_map_iff in Hin as (r & <- & Hr).
    apply Hsat in Hr. unfold satisfies in Hr. tauto.
  - intros hr n Hin. apply groupby_size_keys, in_map_iff in Hin as (r & <- & Hr).
    apply Hsat in Hr. unfold satisfies in Hr. tauto.
Qed.

Lemma charts_respect_the_request_witness :
  req_distance demo_rq = [0; 20]%Q
  /\ fst (handle demo_df demo_rq demo_heap) = Ok (figures_of demo_view)
  /\ (forall d, In d (fst (dist_fig (figures_of demo_view))) -> (0 <= d /\ d <= 20)%Q)
  /\ snd (dist_fig (figures_of demo_view)) = 30%nat
  /\ (forall k n, In (k, n) (pass_fig (figures_of demo_view)) -> 2 <= k)
  /\ (forall hr n, In (hr, n) (time_fig (figures_of demo_view)) ->
                   In (period hr) ["morning"; "evening"]).
Proof.
  split; [reflexivity|]. split; [vm_compute; reflexivity|].
  apply (charts_respect_the_request demo_df demo_rq demo_heap
           (figures_of demo_view) 0 20 []);
    [reflexivity | vm_compute; reflexivity].
Defined.

(** X12. The four figures of a pass describe the same trips: the number of
    map points, the size of the histogram sample, the trips of the hourly
    table and the trips of the passenger table are all equal. *)
Theorem figures_agree_on_the_number_of_trips df rq h figs :
  fst (handle df rq h) = Ok figs ->
  length (fst (dist_fig figs)) = length (map_fig figs)
  /\ total_trips (time_fig figs) = length (map_fig figs)
  /\ total_trips (pass_fig figs) = length (map_fig figs).
Proof.
  intros E.
  apply handle_inv in E as (F & lo & hi & rest & _ & _ & ->).
  cbn [figures_of dist_fig pass_fig time_fig map_fig fst].
  rewrite groupby_size_total, value_counts_total, !length_map. auto.
Qed.

Lemma figures_agree_on_the_number_of_trips_witness :
  fst (handle demo_df demo_rq demo_heap) = Ok (figures_of demo_view)
  /\ length (fst (dist_fig (figures_of demo_view)))
     = length (map_fig (figures_of demo_view))
  /\ total_trips (time_fig (figures_of demo_view))
     = length (map_fig (figures_of demo_view))
  /\ total_trips (pass_fig (figures_of demo_view))
     = length (map_fig (figures_of demo_view)).
Proof.
  split; [vm_compute; reflexivity|].
  apply (figures_agree_on_the_number_of_trips demo_df demo_rq demo_heap).
  vm_compute; reflexivity.
Defined.

(** ** The first pass, with the controls at their initial values *)

Lemma fold_min_le s x :
  fold_left Z.min s x <= x /\ forall y, In y s -> fold_left Z.min s x <= y.
Proof.
  revert x; induction s as [|a s IH]; intros x; simpl; [split; [lia | tauto]|].
  destruct (IH (Z.min x a)) as [H1 H2]. split; [lia|].
  intros y [<-|Hy]; [lia | auto].
Qed.

Lemma fold_max_ge s x :
  x <= fold_left Z.max s x /\ forall y, In y s -> y <= fold_left Z.max s x.
Proof.
  revert x; induction s as [|a s IH]; intros x; simpl; [split; [lia | tauto]|].
  destruct (IH (Z.max x a)) as [H1 H2]. split; [lia|].
  intros y [<-|Hy]; [lia | auto].
Qed.

Lemma Series_min_le s m y : Series_min s = Some m -> In y s -> m <= y.
Proof.
  destruct s as [|x s]; simpl; [discriminate|]. intros [= <-] [<-|Hy].
  - apply (proj1 (fold_min_le s x)).
  - apply (proj2 (fold_min_le s x)), Hy.
Qed.

Lemma Series_max_ge s m y : Series_max s = Some m -> In y s -> y <= m.
Proof.
  destruct s as [|x s]; simpl; [discriminate|]. intros [= <-] [<-|Hy].
  - apply (proj1 (fold_max_ge s x)).
  - apply (proj2 (fold_max_ge s x)), Hy.
Qed.

(** X13. With the controls as the layout sets them (date range from the
    earliest to the latest pickup of [df], at least 1 passenger, distance
    between 0 and 20, all four periods ticked) the pass succeeds, and neither
    the date range nor the time of day excludes anything: the view holds
    exactly the records with at least one passenger and a distance between
    0 and 20, in dataset order. *)
Theorem initial_view_is_cut_by_passengers_and_distance_only df h F rq :
  h !! df = Some F ->
  initial_request (rows F) = Some rq ->
  exists V,
    leaves_view df rq h V
    /\ rows V
       = List.filter
           (fun r => (1 <=? passenger_count r)
                     && (Qle_bool 0 (trip_distance r)
                         && Qle_bool (trip_distance r) 20))
           (rows F).
Proof.
  intros Hdf Hrq. unfold initial_request in Hrq.
  destruct (Series_min (map tpep_pickup_datetime (rows F))) as [t0|] eqn:Hmin;
    [|discriminate].
  destruct (Series_max (map tpep_pickup_datetime (rows F))) as [t1|] eqn:Hmax;
    [|discriminate].
  injection Hrq as <-.
  destruct (filter_view_run h df F t0 t1 1 0%Q 20%Q [] all_periods Hdf)
    as (l & h' & E & Hl & _).
  eexists. split; [exists l, h'; split; [exact E | exact Hl]|].
  unfold view_frame; cbn [rows].
  apply filter_ext_in. intros r Hin. unfold keeps.
  assert (Hp : In (tpep_pickup_datetime r) (map tpep_pickup_datetime (rows F)))
    by (apply in_map, Hin).
  pose proof (Series_min_le _ _ _ Hmin Hp) as H0.
  pose proof (Series_max_ge _ _ _ Hmax Hp) as H1.
  apply Z.leb_le in H0. apply Z.leb_le in H1. rewrite H0, H1. cbn [andb].
  assert (Hex : existsb (String.eqb (period (hour r))) all_periods = true).
  { apply existsb_exists. exists (period (hour r)).
    split; [|apply String.eqb_refl].
    unfold all_periods. destruct (period_cases (hour r)) as [Ep|[Ep|[Ep|Ep]]];
      rewrite Ep; simpl; tauto. }
  rewrite Hex, andb_true_r. reflexivity.
Qed.

Lemma initial_view_is_cut_by_passengers_and_distance_only_witness :
  demo_heap !! demo_df = Some (mkFrame [R1; R2; R3] None)
  /\ initial_request [R1; R2; R3]
     = Some (mkRequest 100 300 1 [0; 20]%Q all_periods)
  /\ exists V,
       leaves_view demo_df (mkRequest 100 300 1 [0; 20]%Q all_periods) demo_heap V
       /\ rows V
          = List.filter
              (fun r => (1 <=? passenger_count r)
                        && (Qle_bool 0 (trip_distance r)
                            && Qle_bool (trip_distance r) 20))
              [R1; R2; R3].
Proof.
  split; [reflexivity|]. split; [reflexivity|].
  apply (initial_view_is_cut_by_passengers_and_distance_only
           demo_df demo_heap (mkFrame [R1; R2; R3] None));
    reflexivity.
Defined.

(** ** Start-up *)

Lemma enrich_from_ix tph la lo i trips :
  map ix (enrich_from tph la lo i trips) = seq i (length trips).
Proof.
  revert i; induction trips as [|t trips IH]; intros i; simpl; [reflexivity|].
  rewrite IH. reflexivity.
Qed.

Lemma enrich_from_rows tph la lo i trips r :
  In r (enrich_from tph la lo i trips) ->
  hour r = dt_hour tph (tpep_pickup_datetime r)
  /\ date r = dt_date tph (tpep_pickup_datetime r)
  /\ lat r = la (ix r) /\ lon r = lo (ix r).
Proof.
  revert i; induction trips as [|t trips IH]; intros i; simpl; [tauto|].
  intros [<-|Hin]; [simpl; auto | eapply IH, Hin].
Qed.

Lemma enrich_from_columns tph la lo i trips :
  map tpep_pickup_datetime (enrich_from tph la lo i trips) = map trip_pickup trips
  /\ map passenger_count (enrich_from tph la lo i trips) = map trip_passengers trips
  /\ map trip_distance (enrich_from tph la lo i trips) = map trip_miles trips.
Proof.
  revert i; induction trips as [|t trips IH]; intros i; simpl; [auto|].
  destruct (IH (S i)) as (-> & -> & ->). auto.
Qed.

Lemma dt_hour_range tph t : 0 < tph -> 0 <= dt_hour tph t < 24.
Proof. intros _. unfold dt_hour. apply Z.mod_pos_bound. lia. Qed.

Lemma dt_date_hour tph t :
  0 < tph -> dt_date tph t * 24 + dt_hour tph t = t / tph.
Proof.
  intros Hpos. unfold dt_date, dt_hour.
  rewrite (Z.mul_comm 24 tph), <- Z.div_div by lia.
  rewrite (Z.div_mod (t / tph) 24) at 3 by lia. lia.
Qed.

(** X14. The derived columns of the start-up script: rows are numbered
    0, 1, 2, ... in order; the three raw columns are taken over unchanged;
    every hour lies between 0 and 23; and day and hour together are the
    whole hours elapsed at the pickup instant. *)
Theorem enrich_spec tph la lo trips :
  0 < tph ->
  map ix (enrich tph la lo trips) = seq 0 (length trips)
  /\ map tpep_pickup_datetime (enrich tph la lo trips) = map trip_pickup trips
  /\ map passenger_count (enrich tph la lo trips) = map trip_passengers trips
  /\ map trip_distance (enrich tph la lo trips) = map trip_miles trips
  /\ forall r, In r (enrich tph la lo trips) ->
       0 <= hour r < 24
       /\ date r * 24 + hour r = tpep_pickup_datetime r / tph.
Proof.
  intros Hpos. unfold enrich.
  split; [apply enrich_from_ix|].
  destruct (enrich_from_columns tph la lo 0 trips) as (Ht & Hp & Hd).
  repeat (split; [assumption|]).
  intros r Hin. apply enrich_from_rows in Hin as (-> & -> & _).
  split; [apply dt_hour_range, Hpos | apply dt_date_hour, Hpos].
Qed.

Lemma enrich_spec_witness :
  let la := fun _ : nat => 40%Q in
  let lo := fun _ : nat => (-74)%Q in
  0 < 3600
  /\ map ix (enrich 3600 la lo demo_trips) = seq 0 (length demo_trips)
  /\ map tpep_pickup_datetime (enrich 3600 la lo demo_trips)
     = map trip_pickup demo_trips
  /\ map passenger_count (enrich 3600 la lo demo_trips)
     = map trip_passengers demo_trips
  /\ map trip_distance (enrich 3600 la lo demo_trips) = map trip_miles demo_trips
  /\ forall r, In r (enrich 3600 la lo demo_trips) ->
       0 <= hour r < 24
       /\ date r * 24 + hour r = tpep_pickup_datetime r / 3600.
Proof.
  intros la lo. split; [lia|].
  apply (enrich_spec 3600 la lo demo_trips). lia.
Defined.

(** X15. On rows derived at start-up the last branch of [period] is taken
    for the small hours only: the bucket is night exactly when the hour is
    before 6, and otherwise it is the bucket of the interval holding the
    hour. *)
Theorem derived_hours_are_bucketed_by_interval tph la lo trips r :
  0 < tph ->
  In r (enrich tph la lo trips) ->
  (period (hour r) = "night" <-> 0 <= hour r < 6)
  /\ (period (hour r) = "morning" <-> 6 <= hour r < 12)
  /\ (period (hour r) = "afternoon" <-> 12 <= hour r < 18)
  /\ (period (hour r) = "evening" <-> 18 <= hour r < 24).
Proof.
  intros Hpos Hin. unfold enrich in Hin.
  apply enrich_from_rows in Hin as (Hh & _).
  pose proof (dt_hour_range tph (tpep_pickup_datetime r) Hpos) as Hr.
  rewrite <- Hh in Hr. unfold period.
  destruct (Z.leb_spec 6 (hour r)), (Z.ltb_spec (hour r) 12),
           (Z.leb_spec 12 (hour r)), (Z.ltb_spec (hour r) 18),
           (Z.leb_spec 18 (hour r)), (Z.ltb_spec (hour r) 24);
    simpl; try lia;
    (repeat split; try (intros; lia); try discriminate; try reflexivity).
Qed.

Lemma derived_hours_are_bucketed_by_interval_witness :
  let la := fun _ : nat => 40%Q in
  let lo := fun _ : nat => (-74)%Q in
  let r := mkRow 1 136800 14 1 1 5 40 (-74) noise in
  0 < 3600
  /\ In r (enrich 3600 la lo demo_trips)
  /\ (period (hour r) = "night" <-> 0 <= hour r < 6)
  /\ (period (hour r) = "morning" <-> 6 <= hour r < 12)
  /\ (period (hour r) = "afternoon" <-> 12 <= hour r < 18)
  /\ (period (hour r) = "evening" <-> 18 <= hour r < 24).
Proof.
  intros la lo r.
  assert (Hin : In r (enrich 3600 la lo demo_trips))
    by (right; left; reflexivity).
  split; [lia|]. split; [exact Hin|].
  apply (derived_hours_are_bucketed_by_interval 3600 la lo demo_trips r);
    [lia | exact Hin].
Defined.

(** ** Writing the cluster column *)

Lemma expand_labels_ge fuel core nbrs k i stack labels labels' :
  -1 <= k ->
  Forall (fun c => -1 <= c) labels ->
  expand fuel core nbrs k i stack labels = Some labels' ->
  Forall (fun c => -1 <= c) labels'.
Proof.
  intros Hk. revert i stack labels.
  induction fuel as [|fuel IH]; intros i stack labels Hall E; [discriminate E|].
  cbn [expand] in E.
  assert (Hins : Forall (fun c => -1 <= c) (<[i := k]> labels))
    by (apply Forall_insert; assumption).
  destruct (unlabeled labels i).
  - destruct (default false (core !! i)).
    + destruct (rev _ ++ stack)%list as [|top rest].
      * injection E as <-. exact Hins.
      * eapply IH; [|exact E]; assumption.
    + destruct stack as [|top rest].
      * injection E as <-. exact Hins.
      * eapply IH; [|exact E]; assumption.
  - destruct stack as [|top rest].
    + injection E as <-. exact Hall.
    + eapply IH; [|exact E]; assumption.
Qed.

Lemma scan_labels_ge fuel core nbrs todo k labels labels' :
  0 <= k ->
  Forall (fun c => -1 <= c) labels ->
  scan fuel core nbrs todo k labels = Some labels' ->
  Forall (fun c => -1 <= c) labels'.
Proof.
  revert k labels. induction todo as [|i todo IH]; intros k labels Hk Hall E.
  - injection E as <-. exact Hall.
  - cbn [scan] in E.
    destruct (negb (unlabeled labels i) || negb (default false (core !! i))).
    + eapply IH; [exact Hk | | exact E]; assumption.
    + destruct (expand fuel core nbrs k i [] labels) as [labels1|] eqn:E1;
        [|discriminate E].
      eapply (IH (k + 1)); [lia | | exact E].
      eapply expand_labels_ge; [| exact Hall | exact E1]. lia.
Qed.

Lemma DBSCAN_labels_ge e ms pts labels :
  DBSCAN e ms pts = Some labels -> Forall (fun c => -1 <= c) labels.
Proof.
  unfold DBSCAN. apply scan_labels_ge; [lia|].
  apply Forall_forall. intros c Hc.
  apply list_elem_of_In, repeat_spec in Hc. subst c. unfold noise. lia.
Qed.

Lemma assign_labels_rows rs labels :
  length labels = length rs ->
  Forall2 (fun r r' => r' = set_cluster r (cluster r')) rs (assign_labels rs labels)
  /\ map cluster (assign_labels rs labels) = labels.
Proof.
  revert labels; induction rs as [|r rs IH]; intros [|c labels] Hlen;
    simpl in *; try discriminate; [split; [constructor | reflexivity]|].
  destruct (IH labels) as [H2 Hm]; [lia|].
  split; [constructor; [reflexivity | exact H2] | rewrite Hm; reflexivity].
Qed.

Lemma clustering_runs rs :
  exists labels,
    clustering rs = Some (assign_labels rs labels)
    /\ length labels = length rs
    /\ Forall (fun c => -1 <= c) labels.
Proof.
  unfold clustering, cluster_labels.
  destruct (DBSCAN_total eps min_samples (map (fun r => (lat r, lon r)) rs))
    as (labels & E & Hlen).
  exists labels. rewrite E. split; [reflexivity|].
  split; [rewrite Hlen; apply length_map|].
  eapply DBSCAN_labels_ge, E.
Qed.

(** X16. Writing the labels (line 38) always succeeds and touches nothing
    but the ['cluster'] column: the frame keeps its rows, in order, each one
    unchanged apart from its cluster label, and every label is -1 or a
    cluster number from 0 up. *)
Theorem clustering_only_writes_the_cluster_column (rs : list Row) :
  exists rs',
    clustering rs = Some rs'
    /\ Forall2 (fun r r' => r' = set_cluster r (cluster r')) rs rs'
    /\ Forall (fun r' => -1 <= cluster r') rs'.
Proof.
  destruct (clustering_runs rs) as (labels & E & Hlen & Hge).
  destruct (assign_labels_rows rs labels Hlen) as [H2 Hm].
  exists (assign_labels rs labels). split; [exact E|]. split; [exact H2|].
  apply Forall_forall. intros r' Hr'.
  rewrite Forall_forall in Hge. apply Hge.
  rewrite <- Hm. apply list_elem_of_In, in_map, list_elem_of_In, Hr'.
Qed.

Lemma Forall2_set_cluster_column {A} (f : Row -> A) rs rs' :
  (forall r c, f (set_cluster r c) = f r) ->
  Forall2 (fun r r' => r' = set_cluster r (cluster r')) rs rs' ->
  map f rs' = map f rs.
Proof.
  intros Hf H2. induction H2 as [|r r' rs rs' Hr _ IH]; simpl; [reflexivity|].
  rewrite IH, Hr, Hf. reflexivity.
Qed.

Lemma startup_runs tph la lo trips :
  0 < tph ->
  exists rs,
    startup tph la lo trips = Some rs
    /\ map ix rs = seq 0 (length trips)
    /\ map tpep_pickup_datetime rs = map trip_pickup trips
    /\ map passenger_count rs = map trip_passengers trips
    /\ map trip_distance rs = map trip_miles trips
    /\ Forall (fun r => 0 <= hour r < 24) rs.
Proof.
  intros Hpos. unfold startup.
  destruct (clustering_runs (enrich tph la lo trips)) as (labels & E & Hlen & _).
  destruct (assign_labels_rows _ labels Hlen) as [H2 _].
  exists (assign_labels (enrich tph la lo trips) labels).
  split; [exact E|].
  destruct (enrich_from_columns tph la lo 0 trips) as (Ht & Hp & Hd).
  split; [rewrite (Forall2_set_cluster_column ix _ _ (fun _ _ => eq_refl) H2);
          apply enrich_from_ix|].
  split; [rewrite (Forall2_set_cluster_column tpep_pickup_datetime _ _
                     (fun _ _ => eq_refl) H2); exact Ht|].
  split; [rewrite (Forall2_set_cluster_column passenger_count _ _
                     (fun _ _ => eq_refl) H2); exact Hp|].
  split; [rewrite (Forall2_set_cluster_column trip_distance _ _
                     (fun _ _ => eq_refl) H2); exact Hd|].
  assert (Hh : map hour (assign_labels (enrich tph la lo trips) labels)
               = map hour (enrich tph la lo trips))
    by apply (Forall2_set_cluster_column hour _ _ (fun _ _ => eq_refl) H2).
  apply Forall_forall. intros r Hr.
  apply list_elem_of_In, (in_map hour) in Hr. rewrite Hh in Hr.
  apply in_map_iff in Hr as (r0 & <- & Hr0).
  unfold enrich in Hr0. apply enrich_from_rows in Hr0 as (-> & _).
  apply dt_hour_range, Hpos.
Qed.

Lemma omap_lookup_length {A} (table : list A) pick :
  Forall (fun i => (i < length table)%nat) pick ->
  length (omap (fun i => table !! i) pick) = length pick.
Proof.
  induction 1 as [|i pick Hi _ IH]; [reflexivity|].
  destruct (lookup_lt_is_Some_2 table i Hi) as [x Hx].
  cbn [omap list_omap]. rewrite Hx. simpl. rewrite <- IH. reflexivity.
Qed.

Lemma omap_lookup_In {A} (table : list A) pick x :
  In x (omap (fun i => table !! i) pick) -> In x table.
Proof.
  intros Hin. apply list_elem_of_In, list_elem_of_omap in Hin as (i & _ & Hi).
  apply list_elem_of_In, list_elem_of_lookup. eauto.
Qed.

(** X17. The start-up script (lines 19-38) stops with [ValueError] when
    the table has fewer than 50000 rows.  On a larger table, for a draw of
    50000 positions of the table, it yields a dataset of exactly 50000
    rows: their index labels are 0 to 49999 (all distinct), their raw
    columns are those of the sampled trips, which are trips of the table,
    and every hour lies between 0 and 23. *)
Theorem startup_script_spec tph la lo pick table :
  0 < tph ->
  (Z.of_nat (length table) < sample_size ->
   startup_script tph la lo pick table = inl ValueError)
  /\ (sample_size <= Z.of_nat (length table) ->
      Z.of_nat (length pick) = sample_size ->
      Forall (fun i => (i < length table)%nat) pick ->
      exists trips rs,
        DataFrame_sample sample_size pick table = inr trips
        /\ startup_script tph la lo pick table = inr (Some rs)
        /\ (forall t, In t trips -> In t table)
        /\ Z.of_nat (length rs) = sample_size
        /\ map ix rs = seq 0 (length rs)
        /\ NoDup (map ix rs)
        /\ map tpep_pickup_datetime rs = map trip_pickup trips
        /\ map passenger_count rs = map trip_passengers trips
        /\ map trip_distance rs = map trip_miles trips
        /\ Forall (fun r => 0 <= hour r < 24) rs).
Proof.
  intros Hpos. unfold startup_script, DataFrame_sample. split.
  - intros Hsmall. apply Z.ltb_lt in Hsmall. rewrite Hsmall. reflexivity.
  - intros Hbig Hpick Hin.
    destruct (Z.ltb_spec (Z.of_nat (length table)) sample_size) as [Hlt|_]; [lia|].
    set (trips := omap (fun i => table !! i) pick).
    destruct (startup_runs tph la lo trips Hpos)
      as (rs & E & Hix & Ht & Hp & Hd & Hh).
    assert (Hlen : length rs = length trips).
    { rewrite <- (length_map ix rs), Hix. apply length_seq. }
    exists trips, rs. rewrite E.
    split; [reflexivity|]. split; [reflexivity|].
    split; [intros t; apply omap_lookup_In|].
    split; [rewrite Hlen; subst trips; rewrite omap_lookup_length by exact Hin;
            exact Hpick|].
    split; [rewrite Hlen; exact Hix|].
    split; [rewrite Hix; apply NoDup_seq|].
    auto.
Qed.

Lemma startup_script_spec_witness :
  let la := fun _ : nat => 40%Q in
  let lo := fun _ : nat => (-74)%Q in
  let big := repeat (mkTrip 25200 2 1) (Z.to_nat sample_size) in
  let pick := seq 0 (Z.to_nat sample_size) in
  0 < 3600
  /\ startup_script 3600 la lo [] demo_trips = inl ValueError
  /\ exists trips rs,
       DataFrame_sample sample_size pick big = inr trips
       /\ startup_script 3600 la lo pick big = inr (Some rs)
       /\ (forall t, In t trips -> In t big)
       /\ Z.of_nat (length rs) = sample_size
       /\ map ix rs = seq 0 (length rs)
       /\ NoDup (map ix rs)
       /\ map tpep_pickup_datetime rs = map trip_pickup trips
       /\ map passenger_count rs = map trip_passengers trips
       /\ map trip_distance rs = map trip_miles trips
       /\ Forall (fun r => 0 <= hour r < 24) rs.
Proof.
  intros la lo big pick.
  assert (Hbig : length big = Z.to_nat sample_size) by apply repeat_length.
  assert (Hpick : length pick = Z.to_nat sample_size) by apply length_seq.
  split; [lia|]. split.
  - apply (proj1 (startup_script_spec 3600 la lo [] demo_trips ltac:(lia))).
    unfold sample_size. simpl. lia.
  - apply (proj2 (startup_script_spec 3600 la lo pick big ltac:(lia))).
    + rewrite Hbig. unfold sample_size. lia.
    + rewrite Hpick. unfold sample_size. lia.
    + apply Forall_forall. intros i Hi.
      apply list_elem_of_In, in_seq in Hi. rewrite Hbig. lia.
Defined.

(** The part after the sampling, run on three trips. *)
Example startup_demo :
  startup 3600 (fun _ => 40%Q) (fun _ => (-74)%Q) demo_trips = Some [R1'; R2'; R3'].
Proof. vm_compute. reflexivity. Qed.
